(** * A shallow embedding of [multi_armed_bandit.py]

    The class [k_bandit_epsilon_greedy] is embedded as a record [bandit] for
    the object's attributes and one monadic definition per method.  A method
    runs in a [world] made of the object and of the state of the process-wide
    random generator behind [np.random]; an exception leaves the world as it
    was when it was raised, as in Python.

    Numbers.  A Python [float] is embedded as an exact rational ([Q]); every
    equation between floats proved below is an equation of exact arithmetic.
    [initial_reward] is a Python number, an [int] or a [float]: it decides
    the element type of the array [action_values], and a store into an array
    of integers truncates.
    The selection counters (numpy's default integer type) and Python's [int]
    are embedded as unbounded integers ([Z]); a counter of 64 bits agrees with
    its embedding as long as fewer than 2^63 rounds have been run.  Where
    numpy's float division by an integer zero would produce [inf] and a
    warning, the embedding raises [ZeroDivision], as exact arithmetic has no
    infinity. *)

From Stdlib Require Import ZArith QArith Qfield Lia Lqa.
From stdpp Require Import base option list.

Local Open Scope Z_scope.

(** ** Outcomes and the method monad *)

Inductive exn : Type :=
| ValueError
| IndexError
| ZeroDivision.

(** What a call comes to: a value, a Python exception, or (in the embedding
    only) the exhaustion of the fuel that bounds a [while] loop. *)
Inductive outcome (A : Type) : Type :=
| Return (a : A)
| Raise (e : exn)
| OutOfFuel.

Arguments Return {A} a.
Arguments Raise {A} e.
Arguments OutOfFuel {A}.

Definition of_outcome {A B : Type} (o : outcome A) (f : A -> outcome B) : outcome B :=
  match o with
  | Return a => f a
  | Raise e => Raise e
  | OutOfFuel => OutOfFuel
  end.

(** ** Python numbers and the element types of arrays *)

(** A number as a caller passes it: [7] or [7.0]. *)
Inductive number : Type :=
| PyInt (z : Z)
| PyFloat (q : Q).

(** The element type of a numpy array: [int64] or [float64]. *)
Inductive dtype : Type :=
| Int64
| Float64.

Definition number_value (x : number) : Q :=
  match x with
  | PyInt z => inject_Z z
  | PyFloat q => q
  end.

(** The element type of an array made from the scalar [x]. *)
Definition number_dtype (x : number) : dtype :=
  match x with
  | PyInt _ => Int64
  | PyFloat _ => Float64
  end.

(** ** The numpy operations the class uses *)

Module np.

(** The value an array of element type [d] holds after [x] is stored in it:
    a float stored in an array of integers is truncated toward zero (to an
    integer of any size here, as for the counters). *)
Definition cast (d : dtype) (x : Q) : Q :=
  match d with
  | Float64 => x
  | Int64 => inject_Z (Z.quot (Qnum x) (Z.pos (Qden x)))
  end.

(** [np.repeat(x, n)] for a scalar [x]: a negative count is refused. *)
Definition repeat {A : Type} (x : A) (n : Z) : outcome (list A) :=
  if n <? 0 then Raise ValueError else Return (replicate (Z.to_nat n) x).

(** The position an index denotes in an array of length [len]: an index in
    [-len, 0) counts from the end, anything outside [-len, len) is an
    [IndexError]. *)
Definition index (len : nat) (i : Z) : outcome nat :=
  if (0 <=? i) && (i <? Z.of_nat len) then Return (Z.to_nat i)
  else if (- Z.of_nat len <=? i) && (i <? 0) then Return (Z.to_nat (i + Z.of_nat len))
  else Raise IndexError.

(** [arr[i]] *)
Definition getitem {A : Type} (arr : list A) (i : Z) : outcome A :=
  of_outcome (index (length arr) i) (fun n =>
    match arr !! n with
    | Some x => Return x
    | None => Raise IndexError
    end).

(** [arr[i] = x] *)
Definition setitem {A : Type} (arr : list A) (i : Z) (x : A) : outcome (list A) :=
  of_outcome (index (length arr) i) (fun n => Return (<[n := x]> arr)).

(** The scan behind [np.argmax]: [best] is the largest entry seen so far
    and [best_i] its position; a later entry replaces it only when it is
    strictly larger, so the first occurrence of the maximum wins. *)
Fixpoint argmax_scan (best : Q) (best_i : nat) (i : nat) (arr : list Q) : nat :=
  match arr with
  | [] => best_i
  | x :: rest =>
      if Qle_bool x best then argmax_scan best best_i (S i) rest
      else argmax_scan x i (S i) rest
  end.

(** [np.argmax(arr)]: an empty array is refused. *)
Definition argmax (arr : list Q) : outcome Z :=
  match arr with
  | [] => Raise ValueError
  | x :: rest => Return (Z.of_nat (argmax_scan x 0%nat 1%nat rest))
  end.

(** [1 / c] for an integer [c], as a float. *)
Definition true_divide (x : Q) (c : Z) : outcome Q :=
  if c =? 0 then Raise ZeroDivision else Return (x / inject_Z c)%Q.

End np.

(** ** The random generator

    [np.random] is used through three draws.  The generator is an interface:
    a state and, for each draw, the value drawn and the next state.  The two
    laws are the ranges numpy documents. *)
Class RandomSource (G : Type) : Type := {
  draw_ranf : G -> Q * G;
  draw_randint : Z -> Z -> G -> Z * G;
  draw_normal : Q -> Q -> G -> Q * G;
  draw_ranf_range : forall g, (0 <= (draw_ranf g).1 /\ (draw_ranf g).1 < 1)%Q;
  draw_randint_range : forall low high g,
    low < high -> low <= (draw_randint low high g).1 < high
}.

(** ** The object *)

Record bandit : Type := Bandit {
  k : Z;
  epsilon : Q;
  iters : Z;
  action_values : list Q;
  action_values_dtype : dtype;
  action_chosen_counter : list Z;
  total_reward : Q;
  reward_means : list Q;
  reward_variances : list Q
}.

Definition set_action_values (vs : list Q) (b : bandit) : bandit :=
  Bandit (k b) (epsilon b) (iters b) vs (action_values_dtype b) (action_chosen_counter b)
         (total_reward b) (reward_means b) (reward_variances b).

Definition set_action_chosen_counter (cs : list Z) (b : bandit) : bandit :=
  Bandit (k b) (epsilon b) (iters b) (action_values b) (action_values_dtype b) cs
         (total_reward b) (reward_means b) (reward_variances b).

Definition set_total_reward (t : Q) (b : bandit) : bandit :=
  Bandit (k b) (epsilon b) (iters b) (action_values b) (action_values_dtype b)
         (action_chosen_counter b) t (reward_means b) (reward_variances b).

Section Methods.

Context {G : Type} `{RandomSource G}.

Definition world : Type := bandit * G.

(** A method body: it runs in a world and leaves an outcome and a world. *)
Definition M (A : Type) : Type := world -> outcome A * world.

Definition ret {A : Type} (a : A) : M A := fun w => (Return a, w).

Definition bind {A B : Type} (c : M A) (f : A -> M B) : M B :=
  fun w =>
    match c w with
    | (Return a, w') => f a w'
    | (Raise e, w') => (Raise e, w')
    | (OutOfFuel, w') => (OutOfFuel, w')
    end.

Definition lift {A : Type} (o : outcome A) : M A := fun w => (o, w).

(** Read an attribute of [self]. *)
Definition attr {A : Type} (f : bandit -> A) : M A := fun w => (Return (f w.1), w).

(** Assign to an attribute of [self]. *)
Definition assign (f : bandit -> bandit) : M unit := fun w => (Return tt, (f w.1, w.2)).

(** A draw from the generator. *)
Definition draw {A : Type} (d : G -> A * G) : M A :=
  fun w => (Return (d w.2).1, (w.1, (d w.2).2)).

Notation "x <- c ;; f" := (bind c (fun x => f))
  (at level 20, c at level 99, f at level 200, only parsing).
Notation "c ;; f" := (bind c (fun _ => f))
  (at level 100, f at level 200, only parsing, right associativity).

(** [np.random.ranf(1)[0]] *)
Definition np_random_ranf : M Q := draw draw_ranf.

(** [np.random.randint(low, high)]: an empty range is refused. *)
Definition np_random_randint (low high : Z) : M Z :=
  if high <=? low then lift (Raise ValueError) else draw (draw_randint low high).

(** [np.random.normal(loc, scale)]: a negative scale is refused. *)
Definition np_random_normal (loc scale : Q) : M Q :=
  if Qle_bool 0 scale then draw (draw_normal loc scale) else lift (Raise ValueError).

(** [np.random.normal(loc, scale, n)]: [n] draws, one after the other. *)
Fixpoint draw_normal_vector (loc scale : Q) (n : nat) (g : G) : list Q * G :=
  match n with
  | O => ([], g)
  | S n' =>
      let (x, g1) := draw_normal loc scale g in
      let (xs, g2) := draw_normal_vector loc scale n' g1 in
      (x :: xs, g2)
  end.

(** [__init__]: the object is built attribute by attribute; the only
    statement that can fail is the first [np.repeat].  [action_values] is an
    array of the element type of [initial_reward]. *)
Definition __init__ (k0 : Z) (epsilon0 : Q) (iters0 : Z) (initial_reward : number)
    (reward_means0 reward_variances0 : option (list Q)) (g : G) : outcome bandit * G :=
  match np.repeat (number_value initial_reward) k0 with
  | Return values =>
      match np.repeat 0 k0 with
      | Return counters =>
          let (means, g') :=
            match reward_means0 with
            | None => draw_normal_vector 0 1 (Z.to_nat k0) g
            | Some ms => (ms, g)
            end in
          let variances :=
            match reward_variances0 with
            | None => replicate (Z.to_nat k0) 1%Q
            | Some vs => vs
            end in
          (Return (Bandit k0 epsilon0 iters0 values (number_dtype initial_reward)
                     counters 0 means variances), g')
      | Raise e => (Raise e, g)
      | OutOfFuel => (OutOfFuel, g)
      end
  | Raise e => (Raise e, g)
  | OutOfFuel => (OutOfFuel, g)
  end.

(** [choose_action]: explore or exploit. *)
Definition choose_action : M Z :=
  rand_val <- np_random_ranf ;;
  eps <- attr epsilon ;;
  if Qle_bool rand_val eps then
    n <- attr k ;;
    np_random_randint 0 n
  else
    values <- attr action_values ;;
    lift (np.argmax values).

(** [get_reward]: sample the reward of the chosen action and add it to the
    total. *)
Definition get_reward (chosen_action : Z) : M Q :=
  means <- attr reward_means ;;
  mean <- lift (np.getitem means chosen_action) ;;
  variances <- attr reward_variances ;;
  variance <- lift (np.getitem variances chosen_action) ;;
  reward <- np_random_normal mean variance ;;
  total <- attr total_reward ;;
  assign (set_total_reward (total + reward)%Q) ;;
  ret reward.

(** First statement of [update_action_values]:
    [counter[a] = counter[a] + 1]. *)
Definition record_chosen (chosen_action : Z) : M unit :=
  counters <- attr action_chosen_counter ;;
  c <- lift (np.getitem counters chosen_action) ;;
  counters' <- lift (np.setitem counters chosen_action (c + 1)) ;;
  assign (set_action_chosen_counter counters').

(** Second statement of [update_action_values]:
    [values[a] = values[a] + 1/(counter[a]) * (reward - values[a])], its
    operands read from left to right; the right-hand side is a float, and the
    store casts it to the element type of the array. *)
Definition update_estimate (chosen_action : Z) (reward : Q) : M unit :=
  values <- attr action_values ;;
  v <- lift (np.getitem values chosen_action) ;;
  counters <- attr action_chosen_counter ;;
  c <- lift (np.getitem counters chosen_action) ;;
  step <- lift (np.true_divide 1 c) ;;
  v' <- lift (np.getitem values chosen_action) ;;
  d <- attr action_values_dtype ;;
  values' <- lift (np.setitem values chosen_action
                     (np.cast d (v + step * (reward - v'))%Q)) ;;
  assign (set_action_values values').

Definition update_action_values (chosen_action : Z) (reward : Q) : M unit :=
  record_chosen chosen_action ;;
  update_estimate chosen_action reward.

(** The [while] loop of [run_bandit], from a value of [iteration_counter].
    Each test of the loop condition takes one unit of fuel. *)
Fixpoint while_iteration (fuel : nat) (iteration_counter : Z) : M unit :=
  match fuel with
  | O => lift OutOfFuel
  | S fuel' =>
      n <- attr iters ;;
      if iteration_counter <=? n then
        chosen_action <- choose_action ;;
        reward <- get_reward chosen_action ;;
        update_action_values chosen_action reward ;;
        while_iteration fuel' (iteration_counter + 1)
      else ret tt
  end.

Definition run_bandit (fuel : nat) : M Q :=
  while_iteration fuel 0 ;;
  attr total_reward.

(** ** Rounds, as the specification speaks of them

    One round is: select an action, observe its reward, update its
    estimate.  [round] leaves the pair of the arm and the reward; [rounds n]
    runs [n] rounds and leaves their pairs, oldest first. *)
Definition round : M (Z * Q) :=
  chosen_action <- choose_action ;;
  reward <- get_reward chosen_action ;;
  update_action_values chosen_action reward ;;
  ret (chosen_action, reward).

Fixpoint rounds (n : nat) : M (list (Z * Q)) :=
  match n with
  | O => ret []
  | S n' =>
      first <- round ;;
      rest <- rounds n' ;;
      ret (first :: rest)
  end.

End Methods.

Arguments world G : clear implicits.
Arguments M G A : clear implicits.

(** ** A generator that replays a tape

    For running the methods on concrete inputs: the generator's state is the
    list of raw words still to be consumed (an exhausted tape yields zeros).
    [ranf] keeps 53 bits of a word, as numpy does; [randint] reduces a word
    into the range; [normal] reads a word as thousandths of a standard
    deviation. *)
Module Tape.

Definition next (g : list Z) : Z * list Z :=
  match g with
  | [] => (0, [])
  | x :: g' => (x, g')
  end.

Definition ranf (g : list Z) : Q * list Z :=
  let (x, g') := next g in ((x mod 2 ^ 53) # (2 ^ 53), g').

Definition randint (low high : Z) (g : list Z) : Z * list Z :=
  let (x, g') := next g in (low + x mod (high - low), g').

Definition normal (loc scale : Q) (g : list Z) : Q * list Z :=
  let (x, g') := next g in ((loc + scale * (x # 1000))%Q, g').

Lemma ranf_range (g : list Z) : (0 <= (ranf g).1 /\ (ranf g).1 < 1)%Q.
Proof.
  unfold ranf. destruct (next g) as [x g']. cbn [fst].
  pose proof (Z.mod_pos_bound x (2 ^ 53) eq_refl) as [Hlo Hhi].
  unfold Qle, Qlt. cbn [Qnum Qden]. split; lia.
Qed.

Lemma randint_range (low high : Z) (g : list Z) :
  low < high -> low <= (randint low high g).1 < high.
Proof.
  intros Hlt. unfold randint. destruct (next g) as [x g']. cbn [fst].
  pose proof (Z.mod_pos_bound x (high - low)). lia.
Qed.

#[global] Instance source : RandomSource (list Z) := {
  draw_ranf := ranf;
  draw_randint := randint;
  draw_normal := normal;
  draw_ranf_range := ranf_range;
  draw_randint_range := randint_range
}.

End Tape.

(** ** Predicates of the specification *)

(** [n] is the first position of a maximal entry of [l]: its entry is at
    least every entry, and strictly above every earlier entry. *)
Definition first_max_at (l : list Q) (n : nat) : Prop :=
  exists v, l !! n = Some v
    /\ (forall j x, l !! j = Some x -> (x <= v)%Q)
    /\ (forall j x, (j < n)%nat -> l !! j = Some x -> (x < v)%Q).

(** The entry at [m] is at least every entry of [l]. *)
Definition is_max_at (l : list Q) (m : nat) : Prop :=
  exists u, l !! m = Some u /\ forall j x, l !! j = Some x -> (x <= u)%Q.

(** [n] is the smallest index whose entry is at least every entry of [l]. *)
Definition smallest_max_at (l : list Q) (n : nat) : Prop :=
  is_max_at l n /\ forall m, is_max_at l m -> (n <= m)%nat.

(** ** The numpy operations: their behaviour in and out of range *)

Lemma index_in_range (len : nat) (i : Z) :
  0 <= i < Z.of_nat len -> np.index len i = Return (Z.to_nat i).
Proof.
  intros [Hlo Hhi]. unfold np.index.
  destruct (Z.leb_spec 0 i); [|lia].
  destruct (Z.ltb_spec i (Z.of_nat len)); [|lia].
  reflexivity.
Qed.

Lemma index_position (len : nat) (i : Z) (n : nat) :
  np.index len i = Return n -> (n < len)%nat.
Proof.
  unfold np.index.
  destruct (Z.leb_spec 0 i); destruct (Z.ltb_spec i (Z.of_nat len)); cbn [andb].
  - intros [= <-]. lia.
  - destruct (Z.leb_spec (- Z.of_nat len) i); destruct (Z.ltb_spec i 0);
      cbn [andb]; try discriminate; lia.
  - destruct (Z.leb_spec (- Z.of_nat len) i); destruct (Z.ltb_spec i 0);
      cbn [andb]; try discriminate. intros [= <-]. lia.
  - destruct (Z.leb_spec (- Z.of_nat len) i); destruct (Z.ltb_spec i 0);
      cbn [andb]; try discriminate. intros [= <-]. lia.
Qed.

Lemma getitem_position {A : Type} (arr : list A) (i : Z) (n : nat) :
  np.index (length arr) i = Return n ->
  exists x, arr !! n = Some x /\ np.getitem arr i = Return x.
Proof.
  intros Hi. pose proof (index_position _ _ _ Hi) as Hn.
  destruct (lookup_lt_is_Some_2 arr n Hn) as [x Hx].
  exists x. split; [exact Hx|].
  unfold np.getitem. rewrite Hi. cbn [of_outcome]. rewrite Hx. reflexivity.
Qed.

Lemma setitem_position {A : Type} (arr : list A) (i : Z) (n : nat) (x : A) :
  np.index (length arr) i = Return n ->
  np.setitem arr i x = Return (<[n := x]> arr).
Proof. intros Hi. unfold np.setitem. rewrite Hi. reflexivity. Qed.

(** ** [np.argmax] returns the first position of the maximum *)

Lemma argmax_scan_first_max (rest pre : list Q) (best : Q) (best_i : nat) :
  pre !! best_i = Some best ->
  (forall j x, pre !! j = Some x -> (x <= best)%Q) ->
  (forall j x, (j < best_i)%nat -> pre !! j = Some x -> (x < best)%Q) ->
  first_max_at (pre ++ rest) (np.argmax_scan best best_i (length pre) rest).
Proof.
  revert pre best best_i.
  induction rest as [|x rest IH]; intros pre best best_i Hbest Hmax Hfirst.
  - cbn [np.argmax_scan]. rewrite app_nil_r. exists best. auto.
  - cbn [np.argmax_scan].
    replace (pre ++ x :: rest) with ((pre ++ [x]) ++ rest)
      by (rewrite <- app_assoc; reflexivity).
    replace (S (length pre)) with (length (pre ++ [x]))
      by (rewrite length_app; cbn; lia).
    pose proof (lookup_lt_Some _ _ _ Hbest) as Hlt.
    destruct (Qle_bool x best) eqn:Hle.
    + apply Qle_bool_iff in Hle. apply IH.
      * rewrite lookup_app_l by exact Hlt. exact Hbest.
      * intros j y Hj. apply lookup_app_Some in Hj as [Hj|[Hge Hj]].
        -- eapply Hmax, Hj.
        -- apply list_lookup_singleton_Some in Hj as [_ <-]. exact Hle.
      * intros j y Hjlt Hj. apply lookup_app_Some in Hj as [Hj|[Hge Hj]].
        -- eapply Hfirst; eauto.
        -- lia.
    + assert (best < x)%Q as Hgt.
      { apply Qnot_le_lt. intros Hc. apply Qle_bool_iff in Hc. congruence. }
      apply IH.
      * rewrite lookup_app_r by lia. rewrite Nat.sub_diag. reflexivity.
      * intros j y Hj. apply lookup_app_Some in Hj as [Hj|[Hge Hj]].
        -- apply Qlt_le_weak. eapply Qle_lt_trans; [eapply Hmax, Hj|exact Hgt].
        -- apply list_lookup_singleton_Some in Hj as [_ <-]. apply Qle_refl.
      * intros j y Hjlt Hj. apply lookup_app_Some in Hj as [Hj|[Hge Hj]].
        -- eapply Qle_lt_trans; [eapply Hmax, Hj|exact Hgt].
        -- lia.
Qed.

Lemma argmax_first_max (arr : list Q) :
  arr <> [] ->
  exists n, np.argmax arr = Return (Z.of_nat n) /\ first_max_at arr n.
Proof.
  destruct arr as [|x rest]; [congruence|]. intros _.
  exists (np.argmax_scan x 0%nat 1%nat rest). split; [reflexivity|].
  apply (argmax_scan_first_max rest [x] x 0%nat).
  - reflexivity.
  - intros j y Hj. apply list_lookup_singleton_Some in Hj as [_ <-]. apply Qle_refl.
  - intros j y Hj. lia.
Qed.

Lemma first_max_at_smallest (l : list Q) (n : nat) :
  first_max_at l n -> smallest_max_at l n.
Proof.
  intros (v & Hv & Hmax & Hfirst). split.
  - exists v. split; assumption.
  - intros m (u & Hu & Hmax').
    destruct (Nat.le_gt_cases n m) as [Hle|Hgt]; [exact Hle|].
    pose proof (Hfirst _ _ Hgt Hu). pose proof (Hmax' _ _ Hv). lra.
Qed.

(** The first maximum is unique: [first_max_at] determines the position. *)
Lemma first_max_at_unique (l : list Q) (n m : nat) :
  first_max_at l n -> first_max_at l m -> n = m.
Proof.
  intros (v & Hv & Hmax & Hfirst) (u & Hu & Hmax' & Hfirst').
  destruct (Nat.lt_trichotomy n m) as [Hlt|[Heq|Hgt]]; [|exact Heq|].
  - pose proof (Hfirst' _ _ Hlt Hv). pose proof (Hmax _ _ Hu). lra.
  - pose proof (Hfirst _ _ Hgt Hu). pose proof (Hmax' _ _ Hv). lra.
Qed.

(** ** Well-formed engines

    The state an engine is in after a construction with a positive number of
    arms, arrays of that length and non-negative scales, and after any number
    of rounds: the four arrays have length [k], no counter is negative and no
    scale is negative. *)
Record valid (b : bandit) : Prop := {
  valid_k : 0 < k b;
  valid_action_values : Z.of_nat (length (action_values b)) = k b;
  valid_action_chosen_counter : Z.of_nat (length (action_chosen_counter b)) = k b;
  valid_reward_means : Z.of_nat (length (reward_means b)) = k b;
  valid_reward_variances : Z.of_nat (length (reward_variances b)) = k b;
  valid_counters : Forall (fun c => 0 <= c) (action_chosen_counter b);
  valid_scales : Forall (fun v => (0 <= v)%Q) (reward_variances b)
}.

(** The arguments of a construction the specification calls valid. *)
Definition valid_config (k0 iters0 : Z) (reward_means0 reward_variances0 : option (list Q)) : Prop :=
  0 < k0 /\ 0 < iters0
  /\ (forall ms, reward_means0 = Some ms -> Z.of_nat (length ms) = k0)
  /\ (forall vs, reward_variances0 = Some vs ->
        Z.of_nat (length vs) = k0 /\ Forall (fun v => (0 <= v)%Q) vs).

Fixpoint sum_counter (cs : list Z) : Z :=
  match cs with
  | [] => 0
  | c :: rest => c + sum_counter rest
  end.

(** The rewards delivered for arm [a] in a sequence of updates, in order. *)
Fixpoint rewards_for (a : Z) (updates : list (Z * Q)) : list Q :=
  match updates with
  | [] => []
  | (a', r) :: rest => if a' =? a then r :: rewards_for a rest else rewards_for a rest
  end.

Fixpoint sum_rewards (rs : list Q) : Q :=
  match rs with
  | [] => 0
  | r :: rest => (r + sum_rewards rest)%Q
  end.

Definition mean_reward (rs : list Q) : Q :=
  (sum_rewards rs / inject_Z (Z.of_nat (length rs)))%Q.

Ltac run :=
  cbv beta iota zeta delta [bind ret lift attr assign draw]; cbn [fst snd].

(** Case analysis on the outcome a [match] of the goal waits for. *)
Ltac destruct_outcome :=
  match goal with
  | |- context [match ?o with Return _ => _ | Raise _ => _ | OutOfFuel => _ end] =>
      destruct o
  end.

Section Properties.

Context {G : Type} `{RandomSource G}.

Notation "x <- c ;; f" := (bind c (fun x => f))
  (at level 20, c at level 99, f at level 200, only parsing).
Notation "c ;; f" := (bind c (fun _ => f))
  (at level 100, f at level 200, only parsing, right associativity).

(** A sequence of calls of [update_action_values], one per pair. *)
Fixpoint update_all (updates : list (Z * Q)) : M G unit :=
  match updates with
  | [] => ret tt
  | (a, r) :: rest => update_action_values a r ;; update_all rest
  end.

(** [m] calls of [run_bandit] in a row, leaving what each call returned. *)
Fixpoint run_bandit_times (fuel : nat) (m : nat) : M G (list Q) :=
  match m with
  | O => ret []
  | S m' =>
      first <- run_bandit fuel ;;
      rest <- run_bandit_times fuel m' ;;
      ret (first :: rest)
  end.

(** *** [choose_action] *)

Lemma choose_action_frame (b : bandit) (g : G) :
  (choose_action (b, g)).2.1 = b.
Proof.
  unfold choose_action, np_random_ranf, np_random_randint. run.
  destruct (Qle_bool _ _); run; [destruct (k b <=? 0)|]; reflexivity.
Qed.

Lemma choose_action_explore (b : bandit) (g : G) :
  ((draw_ranf g).1 <= epsilon b)%Q ->
  choose_action (b, g) =
    if k b <=? 0 then (Raise ValueError, (b, (draw_ranf g).2))
    else (Return (draw_randint 0 (k b) (draw_ranf g).2).1,
          (b, (draw_randint 0 (k b) (draw_ranf g).2).2)).
Proof.
  intros Hle. apply Qle_bool_iff in Hle.
  unfold choose_action, np_random_ranf, np_random_randint. run.
  rewrite Hle. run. destruct (k b <=? 0); reflexivity.
Qed.

Lemma choose_action_exploit (b : bandit) (g : G) :
  (epsilon b < (draw_ranf g).1)%Q ->
  choose_action (b, g) = (np.argmax (action_values b), (b, (draw_ranf g).2)).
Proof.
  intros Hlt.
  assert (Qle_bool (draw_ranf g).1 (epsilon b) = false) as Hb.
  { destruct (Qle_bool _ _) eqn:Hle; [|reflexivity].
    apply Qle_bool_iff in Hle. lra. }
  unfold choose_action, np_random_ranf. run. rewrite Hb. reflexivity.
Qed.

Lemma first_max_at_lt (l : list Q) (n : nat) :
  first_max_at l n -> (n < length l)%nat.
Proof. intros (v & Hv & _). eapply lookup_lt_Some, Hv. Qed.

Lemma choose_action_valid (b : bandit) (g : G) :
  valid b ->
  exists a g', choose_action (b, g) = (Return a, (b, g')) /\ 0 <= a < k b.
Proof.
  intros Hv. destruct (Qlt_le_dec (epsilon b) (draw_ranf g).1) as [Hlt|Hle].
  - rewrite choose_action_exploit by exact Hlt.
    destruct (argmax_first_max (action_values b)) as (n & Hn & Hfm).
    { intros Hnil. pose proof (valid_k b Hv). pose proof (valid_action_values b Hv) as Hl.
      rewrite Hnil in Hl. cbn in Hl. lia. }
    apply first_max_at_lt in Hfm. pose proof (valid_action_values b Hv).
    rewrite Hn. eexists _, _. split; [reflexivity|lia].
  - rewrite choose_action_explore by exact Hle.
    pose proof (valid_k b Hv).
    destruct (Z.leb_spec (k b) 0); [lia|].
    eexists _, _. split; [reflexivity|].
    apply draw_randint_range. lia.
Qed.

(** *** [get_reward] *)

Lemma get_reward_position (b : bandit) (g : G) (a : Z) (n m : nat) :
  np.index (length (reward_means b)) a = Return n ->
  np.index (length (reward_variances b)) a = Return m ->
  exists mean scale,
    reward_means b !! n = Some mean /\ reward_variances b !! m = Some scale
    /\ get_reward a (b, g) =
       if Qle_bool 0 scale
       then (Return (draw_normal mean scale g).1,
             (set_total_reward (total_reward b + (draw_normal mean scale g).1)%Q b,
              (draw_normal mean scale g).2))
       else (Raise ValueError, (b, g)).
Proof.
  intros Hn Hm.
  destruct (getitem_position _ _ _ Hn) as (mean & Hmean & Hgm).
  destruct (getitem_position _ _ _ Hm) as (scale & Hscale & Hgs).
  exists mean, scale. split; [exact Hmean|]. split; [exact Hscale|].
  unfold get_reward, np_random_normal. run. rewrite Hgm, Hgs.
  destruct (Qle_bool 0 scale); reflexivity.
Qed.

Lemma get_reward_valid (b : bandit) (g : G) (a : Z) :
  valid b -> 0 <= a < k b ->
  exists mean scale,
    reward_means b !! Z.to_nat a = Some mean
    /\ reward_variances b !! Z.to_nat a = Some scale
    /\ get_reward a (b, g) =
       (Return (draw_normal mean scale g).1,
        (set_total_reward (total_reward b + (draw_normal mean scale g).1)%Q b,
         (draw_normal mean scale g).2)).
Proof.
  intros Hv Ha.
  destruct (get_reward_position b g a (Z.to_nat a) (Z.to_nat a))
    as (mean & scale & Hmean & Hscale & Hrun).
  { apply index_in_range. rewrite (valid_reward_means b Hv). exact Ha. }
  { apply index_in_range. rewrite (valid_reward_variances b Hv). exact Ha. }
  exists mean, scale. split; [exact Hmean|]. split; [exact Hscale|].
  rewrite Hrun.
  assert (0 <= scale)%Q as Hs.
  { pose proof (valid_scales b Hv) as Hall. rewrite Forall_lookup in Hall.
    apply (Hall _ _ Hscale). }
  apply Qle_bool_iff in Hs. rewrite Hs. reflexivity.
Qed.

(** *** [update_action_values] *)

Lemma record_chosen_position (b : bandit) (g : G) (a : Z) (n : nat) :
  np.index (length (action_chosen_counter b)) a = Return n ->
  exists c,
    action_chosen_counter b !! n = Some c
    /\ record_chosen a (b, g) =
       (Return tt,
        (set_action_chosen_counter (<[n := c + 1]> (action_chosen_counter b)) b, g)).
Proof.
  intros Hn. destruct (getitem_position _ _ _ Hn) as (c & Hc & Hg).
  exists c. split; [exact Hc|].
  unfold record_chosen. run. rewrite Hg. run.
  rewrite (setitem_position _ _ _ _ Hn). reflexivity.
Qed.

Lemma update_estimate_position (b : bandit) (g : G) (a : Z) (reward : Q) (n m : nat) :
  np.index (length (action_values b)) a = Return n ->
  np.index (length (action_chosen_counter b)) a = Return m ->
  exists v c,
    action_values b !! n = Some v /\ action_chosen_counter b !! m = Some c
    /\ update_estimate a reward (b, g) =
       if c =? 0 then (Raise ZeroDivision, (b, g))
       else (Return tt,
             (set_action_values
                (<[n := np.cast (action_values_dtype b)
                          (v + 1 / inject_Z c * (reward - v))%Q]> (action_values b)) b, g)).
Proof.
  intros Hn Hm.
  destruct (getitem_position _ _ _ Hn) as (v & Hv & Hgv).
  destruct (getitem_position _ _ _ Hm) as (c & Hc & Hgc).
  exists v, c. split; [exact Hv|]. split; [exact Hc|].
  unfold update_estimate, np.true_divide. run. rewrite Hgv, Hgc.
  destruct (c =? 0); [reflexivity|].
  rewrite (setitem_position _ _ _ _ Hn). reflexivity.
Qed.

(** The state after an update of the arm at position [n] whose counter was
    [c] and whose estimate was [v]. *)
Definition updated (n : nat) (c : Z) (v reward : Q) (b : bandit) : bandit :=
  set_action_values
    (<[n := np.cast (action_values_dtype b)
              (v + 1 / inject_Z (c + 1) * (reward - v))%Q]> (action_values b))
    (set_action_chosen_counter (<[n := c + 1]> (action_chosen_counter b)) b).

Lemma update_action_values_position (b : bandit) (g : G) (a : Z) (reward : Q) (n : nat) :
  length (action_values b) = length (action_chosen_counter b) ->
  np.index (length (action_chosen_counter b)) a = Return n ->
  exists c v,
    action_chosen_counter b !! n = Some c /\ action_values b !! n = Some v
    /\ update_action_values a reward (b, g) =
       if c + 1 =? 0
       then (Raise ZeroDivision,
             (set_action_chosen_counter (<[n := c + 1]> (action_chosen_counter b)) b, g))
       else (Return tt, (updated n c v reward b, g)).
Proof.
  intros Hlen Hn.
  destruct (record_chosen_position b g a n Hn) as (c & Hc & Hrec).
  pose proof (index_position _ _ _ Hn) as Hlt.
  set (b1 := set_action_chosen_counter (<[n := c + 1]> (action_chosen_counter b)) b) in *.
  destruct (update_estimate_position b1 g a reward n n) as (v & c1 & Hv & Hc1 & Hupd).
  { cbn. rewrite Hlen. exact Hn. }
  { cbn. rewrite length_insert. exact Hn. }
  cbn in Hv, Hc1. rewrite list_lookup_insert_eq in Hc1 by exact Hlt.
  injection Hc1 as <-.
  exists c, v. split; [exact Hc|]. split; [exact Hv|].
  unfold update_action_values. run. rewrite Hrec, Hupd.
  destruct (c + 1 =? 0); reflexivity.
Qed.

Lemma update_action_values_valid (b : bandit) (g : G) (a : Z) (reward : Q) :
  valid b -> 0 <= a < k b ->
  exists c v,
    action_chosen_counter b !! Z.to_nat a = Some c
    /\ action_values b !! Z.to_nat a = Some v
    /\ 0 <= c
    /\ update_action_values a reward (b, g) =
       (Return tt, (updated (Z.to_nat a) c v reward b, g)).
Proof.
  intros Hv Ha.
  destruct (update_action_values_position b g a reward (Z.to_nat a))
    as (c & v & Hc & Hval & Hrun).
  { pose proof (valid_action_values b Hv). pose proof (valid_action_chosen_counter b Hv). lia. }
  { apply index_in_range. rewrite (valid_action_chosen_counter b Hv). exact Ha. }
  assert (0 <= c) as Hc0.
  { pose proof (valid_counters b Hv) as Hall. rewrite Forall_lookup in Hall.
    apply (Hall _ _ Hc). }
  exists c, v. repeat split; try assumption.
  rewrite Hrun. destruct (Z.eqb_spec (c + 1) 0); [lia|reflexivity].
Qed.

Lemma updated_valid (b : bandit) (n : nat) (c : Z) (v reward : Q) :
  valid b -> 0 <= c -> valid (updated n c v reward b).
Proof.
  intros Hv Hc. destruct Hv as [Hk Hvals Hcnt Hmeans Hvars Hpos Hsc].
  constructor; cbn; try assumption.
  - rewrite length_insert. exact Hvals.
  - rewrite length_insert. exact Hcnt.
  - apply Forall_insert; [exact Hpos|lia].
Qed.

Lemma set_total_reward_valid (b : bandit) (t : Q) :
  valid b -> valid (set_total_reward t b).
Proof. intros [Hk Hvals Hcnt Hmeans Hvars Hpos Hsc]. constructor; cbn; assumption. Qed.

(** *** What no method changes

    [k], [epsilon], [iters], [reward_means] and [reward_variances] are
    assigned by the constructor only, and an array keeps its element type. *)
Definition same_config (b b' : bandit) : Prop :=
  k b' = k b /\ epsilon b' = epsilon b /\ iters b' = iters b
  /\ reward_means b' = reward_means b /\ reward_variances b' = reward_variances b
  /\ action_values_dtype b' = action_values_dtype b.

Lemma same_config_refl (b : bandit) : same_config b b.
Proof. repeat split. Qed.

Lemma same_config_trans (b1 b2 b3 : bandit) :
  same_config b1 b2 -> same_config b2 b3 -> same_config b1 b3.
Proof.
  intros (? & ? & ? & ? & ? & ?) (? & ? & ? & ? & ? & ?).
  repeat split; congruence.
Qed.

Lemma get_reward_same_config (a : Z) (w : world G) :
  same_config w.1 (get_reward a w).2.1.
Proof.
  destruct w as [b g]. unfold get_reward, np_random_normal. run.
  destruct (np.getitem (reward_means b) a); try apply same_config_refl.
  destruct (np.getitem (reward_variances b) a); try apply same_config_refl.
  destruct (Qle_bool 0 _); run; first [apply same_config_refl | repeat split].
Qed.

Lemma update_action_values_same_config (a : Z) (r : Q) (w : world G) :
  same_config w.1 (update_action_values a r w).2.1.
Proof.
  destruct w as [b g].
  unfold update_action_values, record_chosen, update_estimate. run.
  repeat (cbn [fst snd action_values action_chosen_counter
               set_action_chosen_counter set_action_values];
          destruct_outcome);
    repeat split.
Qed.

Lemma round_then {B : Type} (f : Z * Q -> M G B) (w : world G) :
  (p <- round ;; f p) w =
  (chosen_action <- choose_action ;;
   reward <- get_reward chosen_action ;;
   update_action_values chosen_action reward ;;
   f (chosen_action, reward)) w.
Proof.
  unfold round, bind, ret.
  destruct (choose_action w) as [[a|e|] w1]; try reflexivity.
  destruct (get_reward a w1) as [[r|e|] w2]; try reflexivity.
  destruct (update_action_values a r w2) as [[[]|e|] w3]; reflexivity.
Qed.

Lemma round_same_config (w : world G) : same_config w.1 (round w).2.1.
Proof.
  unfold round, bind, ret.
  pose proof (choose_action_frame w.1 w.2) as Hc.
  replace (w.1, w.2) with w in Hc by (destruct w; reflexivity).
  destruct (choose_action w) as [[a|e|] w1]; cbn [fst snd] in *;
    try (rewrite Hc; apply same_config_refl).
  pose proof (get_reward_same_config a w1) as Hg. rewrite Hc in Hg.
  destruct (get_reward a w1) as [[r|e|] w2]; cbn [fst snd] in *; try exact Hg.
  pose proof (update_action_values_same_config a r w2) as Hu.
  destruct (update_action_values a r w2) as [[[]|e|] w3]; cbn [fst snd] in *;
    eapply same_config_trans; eauto.
Qed.

(** *** One round of a well-formed engine *)

Lemma sum_counter_insert (cs : list Z) (n : nat) (c c' : Z) :
  cs !! n = Some c -> sum_counter (<[n := c']> cs) = sum_counter cs - c + c'.
Proof.
  revert n. induction cs as [|x cs IH]; intros [|n] Hn; try discriminate.
  - injection Hn as ->. cbn. lia.
  - change ((x :: cs) !! S n) with (cs !! n) in Hn.
    change (<[S n := c']> (x :: cs)) with (x :: <[n := c']> cs).
    cbn [sum_counter]. rewrite (IH _ Hn). lia.
Qed.

Lemma round_valid (b : bandit) (g : G) :
  valid b ->
  exists a r c v g',
    0 <= a < k b
    /\ action_chosen_counter b !! Z.to_nat a = Some c
    /\ action_values b !! Z.to_nat a = Some v
    /\ 0 <= c
    /\ round (b, g) =
       (Return (a, r),
        (updated (Z.to_nat a) c v r (set_total_reward (total_reward b + r)%Q b), g')).
Proof.
  intros Hv.
  destruct (choose_action_valid b g Hv) as (a & g1 & Hchoose & Ha).
  destruct (get_reward_valid b g1 a Hv Ha) as (mean & scale & _ & _ & Hget).
  set (r := (draw_normal mean scale g1).1) in *.
  set (g2 := (draw_normal mean scale g1).2) in *.
  set (b1 := set_total_reward (total_reward b + r)%Q b) in *.
  assert (valid b1) as Hv1 by (apply set_total_reward_valid, Hv).
  destruct (update_action_values_valid b1 g2 a r Hv1 Ha) as (c & v & Hc & Hval & Hc0 & Hupd).
  exists a, r, c, v, g2. repeat split; try assumption; try apply Ha.
  unfold round, bind, ret. rewrite Hchoose, Hget, Hupd. reflexivity.
Qed.

(** What [n] rounds of a well-formed engine come to: every round returns,
    the engine stays well formed, the counters gain [n] in total and the
    total reward gains the rewards of the rounds, in order. *)
Lemma rounds_valid (n : nat) (b : bandit) (g : G) :
  valid b ->
  exists trace b' g',
    rounds n (b, g) = (Return trace, (b', g'))
    /\ length trace = n
    /\ valid b'
    /\ same_config b b'
    /\ sum_counter (action_chosen_counter b') = sum_counter (action_chosen_counter b) + Z.of_nat n
    /\ total_reward b' = fold_left Qplus (map snd trace) (total_reward b)
    /\ Forall (fun p => 0 <= p.1 < k b) trace.
Proof.
  revert b g. induction n as [|n IH]; intros b g Hv.
  - exists [], b, g. cbn [rounds ret length map fold_left].
    split; [reflexivity|]. split; [reflexivity|]. split; [exact Hv|].
    split; [apply same_config_refl|]. split; [cbn; lia|]. split; [reflexivity|].
    constructor.
  - destruct (round_valid b g Hv) as (a & r & c & v & g1 & Ha & Hc & Hval & Hc0 & Hround).
    set (b1 := updated _ _ _ _ _) in Hround.
    assert (valid b1) as Hv1.
    { apply updated_valid; [apply set_total_reward_valid, Hv|exact Hc0]. }
    destruct (IH b1 g1 Hv1) as (trace & b' & g' & Hrounds & Hlen & Hv' & Hcfg & Hsum & Htot & Hall).
    exists ((a, r) :: trace), b', g'.
    split; [|split; [|split; [|split; [|split; [|split]]]]].
    + cbn [rounds]. unfold bind, ret in *. rewrite Hround, Hrounds. reflexivity.
    + cbn. lia.
    + exact Hv'.
    + eapply same_config_trans; [|exact Hcfg]. repeat split.
    + rewrite Hsum. subst b1. cbn [updated action_chosen_counter set_action_values
        set_action_chosen_counter set_total_reward].
      rewrite (sum_counter_insert _ _ c) by exact Hc. lia.
    + rewrite Htot. reflexivity.
    + constructor; [exact Ha|]. exact Hall.
Qed.

(** *** The constructor *)

Lemma draw_normal_vector_length (loc scale : Q) (n : nat) (g : G) :
  length (draw_normal_vector loc scale n g).1 = n.
Proof.
  revert g. induction n as [|n IH]; intros g; [reflexivity|].
  cbn [draw_normal_vector]. destruct (draw_normal loc scale g) as [x g1].
  specialize (IH g1). destruct (draw_normal_vector loc scale n g1) as [xs g2].
  cbn in *. lia.
Qed.

(** The engine a construction with [0 <= k0] makes. *)
Definition constructed (k0 : Z) (epsilon0 : Q) (iters0 : Z) (initial_reward : number)
    (reward_means0 reward_variances0 : option (list Q)) (g : G) : bandit :=
  Bandit k0 epsilon0 iters0
    (replicate (Z.to_nat k0) (number_value initial_reward)) (number_dtype initial_reward)
    (replicate (Z.to_nat k0) 0) 0
    (match reward_means0 with
     | None => (draw_normal_vector 0 1 (Z.to_nat k0) g).1
     | Some ms => ms
     end)
    (match reward_variances0 with
     | None => replicate (Z.to_nat k0) 1%Q
     | Some vs => vs
     end).

Lemma init_constructs (k0 : Z) (epsilon0 : Q) (iters0 : Z) (initial_reward : number)
    (reward_means0 reward_variances0 : option (list Q)) (g : G) :
  0 <= k0 ->
  exists g',
    __init__ k0 epsilon0 iters0 initial_reward reward_means0 reward_variances0 g =
    (Return (constructed k0 epsilon0 iters0 initial_reward reward_means0 reward_variances0 g), g').
Proof.
  intros Hk. unfold __init__, np.repeat, constructed.
  destruct (Z.ltb_spec k0 0); [lia|].
  destruct reward_means0 as [ms|].
  - eexists. reflexivity.
  - destruct (draw_normal_vector 0 1 (Z.to_nat k0) g) as [xs g']. eexists. reflexivity.
Qed.

Lemma init_negative (k0 : Z) (epsilon0 : Q) (iters0 : Z) (initial_reward : number)
    (reward_means0 reward_variances0 : option (list Q)) (g : G) :
  k0 < 0 ->
  __init__ k0 epsilon0 iters0 initial_reward reward_means0 reward_variances0 g =
  (Raise ValueError, g).
Proof.
  intros Hk. unfold __init__, np.repeat.
  destruct (Z.ltb_spec k0 0); [reflexivity|lia].
Qed.

Lemma init_returns (k0 : Z) (epsilon0 : Q) (iters0 : Z) (initial_reward : number)
    (reward_means0 reward_variances0 : option (list Q)) (g g' : G) (b : bandit) :
  __init__ k0 epsilon0 iters0 initial_reward reward_means0 reward_variances0 g = (Return b, g') ->
  0 <= k0
  /\ b = constructed k0 epsilon0 iters0 initial_reward reward_means0 reward_variances0 g.
Proof.
  intros Hinit. destruct (Z.lt_ge_cases k0 0) as [Hneg|Hk].
  - rewrite init_negative in Hinit by exact Hneg. discriminate.
  - split; [exact Hk|].
    destruct (init_constructs k0 epsilon0 iters0 initial_reward
                reward_means0 reward_variances0 g Hk) as (g1 & Heq).
    rewrite Heq in Hinit. congruence.
Qed.

Lemma Forall_replicate_intro {A : Type} (P : A -> Prop) (x : A) (n : nat) :
  P x -> Forall P (replicate n x).
Proof. intros Hx. induction n; cbn; constructor; assumption. Qed.

Lemma constructed_valid (k0 : Z) (epsilon0 : Q) (iters0 : Z) (initial_reward : number)
    (reward_means0 reward_variances0 : option (list Q)) (g : G) :
  valid_config k0 iters0 reward_means0 reward_variances0 ->
  valid (constructed k0 epsilon0 iters0 initial_reward reward_means0 reward_variances0 g).
Proof.
  intros (Hk & _ & Hms & Hvs). constructor; cbn.
  - exact Hk.
  - rewrite length_replicate. lia.
  - rewrite length_replicate. lia.
  - destruct reward_means0 as [ms|]; [apply Hms; reflexivity|].
    rewrite draw_normal_vector_length. lia.
  - destruct reward_variances0 as [vs|]; [apply Hvs; reflexivity|].
    rewrite length_replicate. lia.
  - apply Forall_replicate_intro. lia.
  - destruct reward_variances0 as [vs|]; [apply Hvs; reflexivity|].
    apply Forall_replicate_intro. discriminate.
Qed.

Lemma sum_counter_replicate_zero (n : nat) : sum_counter (replicate n 0) = 0.
Proof. induction n as [|n IH]; [reflexivity|]. cbn. exact IH. Qed.

(** *** The loop of [run_bandit] *)

(** From a value [c] of the iteration counter, the loop runs one round per
    integer in [c, iters]: that many rounds, whatever the rounds come to. *)
Lemma while_iteration_rounds (n : nat) :
  forall (fuel : nat) (c : Z) (w : world G),
    Z.to_nat (iters w.1 + 1 - c) = n -> (n < fuel)%nat ->
    while_iteration fuel c w = (rounds n ;; ret tt) w.
Proof.
  induction n as [|n IH]; intros fuel c w Hn Hfuel;
    (destruct fuel as [|fuel]; [lia|]); cbn [while_iteration rounds].
  - unfold bind at 1. unfold attr at 1.
    destruct (Z.leb_spec c (iters w.1)); [lia|]. reflexivity.
  - unfold bind at 1. unfold attr at 1.
    destruct (Z.leb_spec c (iters w.1)); [|lia].
    rewrite <- (round_then (fun _ => while_iteration fuel (c + 1)) w).
    pose proof (round_same_config w) as (_ & _ & Hiters & _).
    unfold bind, ret. destruct (round w) as [[p|e|] w1]; try reflexivity.
    cbn [fst snd] in Hiters.
    rewrite (IH fuel (c + 1) w1) by lia.
    unfold bind, ret. destruct (rounds n w1) as [[rest|e|] w2]; reflexivity.
Qed.

Lemma run_bandit_rounds (fuel : nat) (w : world G) :
  (Z.to_nat (iters w.1 + 1) < fuel)%nat ->
  run_bandit fuel w = (rounds (Z.to_nat (iters w.1 + 1)) ;; attr total_reward) w.
Proof.
  intros Hfuel. unfold run_bandit.
  unfold bind at 1.
  rewrite (while_iteration_rounds (Z.to_nat (iters w.1 + 1)) fuel 0 w)
    by lia.
  unfold bind, ret. destruct (rounds _ w) as [[trace|e|] w1]; reflexivity.
Qed.

(** *** Rounds in sequence, calls in sequence *)

Lemma rounds_app (n m : nat) (w w1 w2 : world G) (t1 t2 : list (Z * Q)) :
  rounds n w = (Return t1, w1) ->
  rounds m w1 = (Return t2, w2) ->
  rounds (n + m) w = (Return (t1 ++ t2), w2).
Proof.
  revert w t1. induction n as [|n IH]; intros w t1 Hn Hm.
  - cbn in Hn. injection Hn as <- <-. exact Hm.
  - cbn [rounds Nat.add] in Hn |- *. unfold bind, ret in Hn |- *.
    destruct (round w) as [[p|e|] w']; try discriminate.
    destruct (rounds n w') as [[t|e|] w''] eqn:Hrounds; try discriminate.
    injection Hn as <- <-.
    rewrite (IH w' t Hrounds Hm). reflexivity.
Qed.

Lemma run_bandit_times_valid (fuel m : nat) :
  forall (b : bandit) (g : G),
    valid b -> (Z.to_nat (iters b + 1) < fuel)%nat ->
    exists trace returns b' g',
      rounds (m * Z.to_nat (iters b + 1)) (b, g) = (Return trace, (b', g'))
      /\ run_bandit_times fuel m (b, g) = (Return returns, (b', g'))
      /\ length returns = m
      /\ valid b'
      /\ same_config b b'
      /\ sum_counter (action_chosen_counter b') =
         sum_counter (action_chosen_counter b) + Z.of_nat (m * Z.to_nat (iters b + 1))
      /\ total_reward b' = fold_left Qplus (map snd trace) (total_reward b)
      /\ (forall j, (j < m)%nat ->
            returns !! j =
            Some (fold_left Qplus
                    (map snd (take ((j + 1) * Z.to_nat (iters b + 1)) trace))
                    (total_reward b))).
Proof.
  induction m as [|m IH]; intros b g Hv Hfuel.
  - exists [], [], b, g. cbn [Nat.mul rounds run_bandit_times ret length map fold_left].
    split; [reflexivity|]. split; [reflexivity|]. split; [reflexivity|].
    split; [exact Hv|]. split; [apply same_config_refl|]. split; [lia|].
    split; [reflexivity|]. intros j Hj. lia.
  - set (n1 := Z.to_nat (iters b + 1)) in *.
    destruct (rounds_valid n1 b g Hv)
      as (t1 & b1 & g1 & Hr1 & Hlen1 & Hv1 & Hcfg1 & Hsum1 & Htot1 & _).
    assert (iters b1 = iters b) as Hit by apply Hcfg1.
    destruct (IH b1 g1 Hv1) as (t2 & rets & b' & g' & Hr2 & Hcalls & Hlen & Hv' & Hcfg' & Hsum' & Htot' & Hrets).
    { rewrite Hit. exact Hfuel. }
    rewrite Hit in Hr2, Hsum', Hrets. fold n1 in Hr2, Hrets.
    exists (t1 ++ t2), (total_reward b1 :: rets), b', g'.
    split; [|split; [|split; [|split; [|split; [|split; [|split]]]]]].
    + change (S m * n1)%nat with (n1 + m * n1)%nat.
      eapply rounds_app; eassumption.
    + cbn [run_bandit_times]. unfold bind at 1.
      rewrite run_bandit_rounds by exact Hfuel. cbn [fst]. fold n1.
      unfold bind at 1. rewrite Hr1. unfold attr at 1. cbn [fst].
      unfold bind, ret. rewrite Hcalls. reflexivity.
    + cbn. lia.
    + exact Hv'.
    + eapply same_config_trans; eassumption.
    + rewrite Hsum', Hsum1. lia.
    + rewrite Htot', Htot1, map_app, fold_left_app. reflexivity.
    + intros [|j] Hj.
      * cbn [lookup list_lookup]. f_equal.
        rewrite take_app_length' by lia. exact Htot1.
      * change ((total_reward b1 :: rets) !! S j) with (rets !! j).
        rewrite Hrets by lia. f_equal.
        replace ((S j + 1) * n1)%nat with (length t1 + (j + 1) * n1)%nat by lia.
        rewrite take_app_add, map_app, fold_left_app, Htot1. reflexivity.
Qed.

(** * The claims *)

(** C1: for an engine with [iters = N], [N > 0], one call of [run_bandit]
    is [N + 1] rounds -- each a [choose_action], then a [get_reward] of the
    chosen arm, then an [update_action_values] of that arm -- followed by the
    reading of [total_reward]; on a well-formed engine every round returns,
    so the call returns the [total_reward] left by the last round. *)
Theorem run_bandit_runs_iters_plus_one_rounds (b : bandit) (g : G) (fuel : nat) :
  0 < iters b -> iters b + 1 < Z.of_nat fuel ->
  run_bandit fuel (b, g) = (rounds (Z.to_nat (iters b + 1)) ;; attr total_reward) (b, g)
  /\ (valid b ->
      exists trace b' g',
        rounds (Z.to_nat (iters b + 1)) (b, g) = (Return trace, (b', g'))
        /\ Z.of_nat (length trace) = iters b + 1
        /\ run_bandit fuel (b, g) = (Return (total_reward b'), (b', g'))).
Proof.
  intros HN Hfuel.
  assert (Z.to_nat (iters b + 1) < fuel)%nat as Hfuel' by lia.
  split.
  - apply (run_bandit_rounds fuel (b, g)). exact Hfuel'.
  - intros Hv.
    destruct (rounds_valid (Z.to_nat (iters b + 1)) b g Hv)
      as (trace & b' & g' & Hrounds & Hlen & _).
    exists trace, b', g'. split; [exact Hrounds|]. split; [lia|].
    rewrite (run_bandit_rounds fuel (b, g)) by exact Hfuel'. cbn [fst].
    unfold bind, attr. rewrite Hrounds. reflexivity.
Qed.

(** C3: after a valid construction and any number [n] of rounds, the four
    arrays have length [k], no counter is negative and the counters sum to
    [n] (to 0 right after the construction); one more round adds 1 to the
    counter of the arm it chose and leaves the other counters alone. *)
Theorem counters_sum_to_rounds (k0 : Z) (epsilon0 : Q) (iters0 : Z) (initial_reward : number)
    (reward_means0 reward_variances0 : option (list Q)) (g0 g0' : G) (b : bandit)
    (n : nat) (g : G) :
  valid_config k0 iters0 reward_means0 reward_variances0 ->
  __init__ k0 epsilon0 iters0 initial_reward reward_means0 reward_variances0 g0 = (Return b, g0') ->
  exists trace b' g',
    rounds n (b, g) = (Return trace, (b', g'))
    /\ k b' = k0
    /\ Z.of_nat (length (reward_means b')) = k0
    /\ Z.of_nat (length (reward_variances b')) = k0
    /\ Z.of_nat (length (action_values b')) = k0
    /\ Z.of_nat (length (action_chosen_counter b')) = k0
    /\ Forall (fun c => 0 <= c) (action_chosen_counter b')
    /\ sum_counter (action_chosen_counter b') = Z.of_nat n
    /\ (forall g1, exists a r c b'' g2,
          round (b', g1) = (Return (a, r), (b'', g2))
          /\ 0 <= a < k0
          /\ action_chosen_counter b' !! Z.to_nat a = Some c
          /\ action_chosen_counter b'' = <[Z.to_nat a := c + 1]> (action_chosen_counter b')).
Proof.
  intros Hcfg Hinit.
  apply init_returns in Hinit as [_ ->].
  pose proof (constructed_valid k0 epsilon0 iters0 initial_reward _ _ g0 Hcfg) as Hv.
  set (b := constructed _ _ _ _ _ _ _) in *.
  destruct (rounds_valid n b g Hv)
    as (trace & b' & g' & Hrounds & _ & Hv' & Hsame & Hsum & _).
  assert (k b' = k0) as Hk by apply Hsame.
  exists trace, b', g'. split; [exact Hrounds|]. split; [exact Hk|].
  split; [rewrite <- Hk; apply Hv'|]. split; [rewrite <- Hk; apply Hv'|].
  split; [rewrite <- Hk; apply Hv'|]. split; [rewrite <- Hk; apply Hv'|].
  split; [apply Hv'|].
  split.
  { rewrite Hsum. subst b. cbn [constructed action_chosen_counter].
    rewrite sum_counter_replicate_zero. lia. }
  intros g1.
  destruct (round_valid b' g1 Hv') as (a & r & c & v & g2 & Ha & Hc & _ & _ & Hround).
  eexists a, r, c, _, g2. split; [exact Hround|]. split; [lia|]. split; [exact Hc|].
  reflexivity.
Qed.

(** C8: [m] calls of [run_bandit] in a row on a validly constructed engine
    with [iters = N] are [m * (N + 1)] rounds from the constructed state:
    nothing is reset between calls, the counters sum to [m * (N + 1)] at the
    end, and call [j] returns the sum of the rewards of all the rounds run so
    far, those of the earlier calls included. *)
Theorem run_bandit_again_accumulates (k0 : Z) (epsilon0 : Q) (iters0 : Z) (initial_reward : number)
    (reward_means0 reward_variances0 : option (list Q)) (g0 g0' : G) (b : bandit)
    (fuel m : nat) (g : G) :
  valid_config k0 iters0 reward_means0 reward_variances0 ->
  __init__ k0 epsilon0 iters0 initial_reward reward_means0 reward_variances0 g0 = (Return b, g0') ->
  iters0 + 1 < Z.of_nat fuel ->
  exists trace returns b' g',
    rounds (m * Z.to_nat (iters0 + 1)) (b, g) = (Return trace, (b', g'))
    /\ run_bandit_times fuel m (b, g) = (Return returns, (b', g'))
    /\ length returns = m
    /\ sum_counter (action_chosen_counter b') = Z.of_nat m * (iters0 + 1)
    /\ total_reward b' = fold_left Qplus (map snd trace) 0%Q
    /\ (forall j, (j < m)%nat ->
          returns !! j =
          Some (fold_left Qplus
                  (map snd (take ((j + 1) * Z.to_nat (iters0 + 1)) trace)) 0%Q)).
Proof.
  intros Hcfg Hinit Hfuel.
  apply init_returns in Hinit as [_ ->].
  pose proof (constructed_valid k0 epsilon0 iters0 initial_reward _ _ g0 Hcfg) as Hv.
  set (b := constructed _ _ _ _ _ _ _) in *.
  destruct Hcfg as (_ & HN & _).
  destruct (run_bandit_times_valid fuel m b g Hv)
    as (trace & returns & b' & g' & Hrounds & Hcalls & Hlen & _ & _ & Hsum & Htot & Hrets).
  { subst b. cbn [constructed iters]. lia. }
  exists trace, returns, b', g'.
  split; [exact Hrounds|]. split; [exact Hcalls|]. split; [exact Hlen|].
  split.
  { rewrite Hsum. subst b. cbn [constructed action_chosen_counter iters].
    rewrite sum_counter_replicate_zero, Nat2Z.inj_mul, Z2Nat.id by lia. lia. }
  split; [exact Htot|]. exact Hrets.
Qed.

Lemma choose_action_exploit_first_max (b : bandit) (g : G) :
  action_values b <> [] ->
  (epsilon b < (draw_ranf g).1)%Q ->
  exists n,
    choose_action (b, g) = (Return (Z.of_nat n), (b, (draw_ranf g).2))
    /\ first_max_at (action_values b) n.
Proof.
  intros Hne Hlt. rewrite choose_action_exploit by exact Hlt.
  destruct (argmax_first_max (action_values b) Hne) as (n & Hn & Hfm).
  exists n. rewrite Hn. split; [reflexivity|exact Hfm].
Qed.

(** C6: when the uniform draw exceeds [epsilon], [choose_action] returns the
    smallest index whose entry of [action_values] is at least every entry,
    whatever the (non-empty) vector of action values is. *)
Theorem exploit_returns_first_argmax (b : bandit) (g : G) :
  action_values b <> [] ->
  (epsilon b < (draw_ranf g).1)%Q ->
  exists n,
    choose_action (b, g) = (Return (Z.of_nat n), (b, (draw_ranf g).2))
    /\ (n < length (action_values b))%nat
    /\ smallest_max_at (action_values b) n.
Proof.
  intros Hne Hlt.
  destruct (choose_action_exploit_first_max b g Hne Hlt) as (n & Hrun & Hfm).
  exists n. split; [exact Hrun|].
  split; [eapply first_max_at_lt, Hfm|apply first_max_at_smallest, Hfm].
Qed.

(** C4, amended: on a well-formed engine with [epsilon = 0], a call of
    [choose_action] whose uniform draw is not 0 returns the smallest index of
    a maximal entry of [action_values]; a draw of exactly 0 passes the test
    [rand_val <= epsilon] and the call returns a uniformly drawn arm. *)
Theorem zero_epsilon_exploits_unless_zero_draw (b : bandit) (g : G) :
  valid b ->
  (epsilon b == 0)%Q ->
  ((0 < (draw_ranf g).1)%Q ->
   exists n,
     choose_action (b, g) = (Return (Z.of_nat n), (b, (draw_ranf g).2))
     /\ 0 <= Z.of_nat n < k b
     /\ smallest_max_at (action_values b) n)
  /\ (((draw_ranf g).1 == 0)%Q ->
      choose_action (b, g) =
      (Return (draw_randint 0 (k b) (draw_ranf g).2).1,
       (b, (draw_randint 0 (k b) (draw_ranf g).2).2))).
Proof.
  intros Hv Heps. split.
  - intros Hpos.
    destruct (choose_action_exploit_first_max b g) as (n & Hrun & Hfm).
    + intros Hnil. pose proof (valid_k b Hv). pose proof (valid_action_values b Hv) as Hl.
      rewrite Hnil in Hl. cbn in Hl. lia.
    + rewrite Heps. exact Hpos.
    + exists n. split; [exact Hrun|]. split; [|apply first_max_at_smallest, Hfm].
      pose proof (valid_action_values b Hv). apply first_max_at_lt in Hfm. lia.
  - intros Hzero.
    rewrite choose_action_explore by (rewrite Heps, Hzero; apply Qle_refl).
    pose proof (valid_k b Hv). destruct (Z.leb_spec (k b) 0); [lia|reflexivity].
Qed.

(** C5, amended: the constructor validates nothing and knows no
    [InvalidConfiguration]: whenever [0 <= k0] it returns an engine, for
    every [iters0] and for arrays of any length, which it stores as they are
    given; the only constructions that fail are those with [k0 < 0], where
    the allocation of the arrays raises [ValueError]. *)
Theorem init_validates_nothing (k0 : Z) (epsilon0 : Q) (iters0 : Z) (initial_reward : number)
    (reward_means0 reward_variances0 : option (list Q)) (g : G) :
  0 <= k0 ->
  (exists b g',
     __init__ k0 epsilon0 iters0 initial_reward reward_means0 reward_variances0 g = (Return b, g')
     /\ k b = k0 /\ epsilon b = epsilon0 /\ iters b = iters0
     /\ action_values b = replicate (Z.to_nat k0) (number_value initial_reward)
     /\ action_values_dtype b = number_dtype initial_reward
     /\ action_chosen_counter b = replicate (Z.to_nat k0) 0
     /\ total_reward b = 0%Q
     /\ (forall ms, reward_means0 = Some ms -> reward_means b = ms)
     /\ (forall vs, reward_variances0 = Some vs -> reward_variances b = vs))
  /\ (forall k', k' < 0 ->
        __init__ k' epsilon0 iters0 initial_reward reward_means0 reward_variances0 g =
        (Raise ValueError, g)).
Proof.
  intros Hk. split.
  - destruct (init_constructs k0 epsilon0 iters0 initial_reward
                reward_means0 reward_variances0 g Hk) as (g' & Hinit).
    eexists _, g'. split; [exact Hinit|].
    cbn [constructed k epsilon iters action_values action_values_dtype
         action_chosen_counter total_reward reward_means reward_variances].
    repeat (split; [reflexivity|]). split; intros l ->; reflexivity.
  - intros k' Hneg. apply init_negative, Hneg.
Qed.

(** C7: for a valid arm index [a] of a well-formed engine, [get_reward a]
    returns the very value drawn from the normal distribution of location
    [reward_means[a]] and scale [reward_variances[a]], and the engine it
    leaves differs from the one it found in [total_reward] only, which has
    grown by that value. *)
Theorem get_reward_only_adds_to_total (b : bandit) (g : G) (a : Z) :
  valid b -> 0 <= a < k b ->
  exists mean scale reward b' g',
    reward_means b !! Z.to_nat a = Some mean
    /\ reward_variances b !! Z.to_nat a = Some scale
    /\ draw_normal mean scale g = (reward, g')
    /\ get_reward a (b, g) = (Return reward, (b', g'))
    /\ total_reward b' = (total_reward b + reward)%Q
    /\ action_values b' = action_values b
    /\ action_chosen_counter b' = action_chosen_counter b
    /\ reward_means b' = reward_means b
    /\ reward_variances b' = reward_variances b
    /\ k b' = k b /\ epsilon b' = epsilon b /\ iters b' = iters b
    /\ action_values_dtype b' = action_values_dtype b.
Proof.
  intros Hv Ha.
  destruct (get_reward_valid b g a Hv Ha) as (mean & scale & Hmean & Hscale & Hrun).
  eexists mean, scale, (draw_normal mean scale g).1, _, (draw_normal mean scale g).2.
  split; [exact Hmean|]. split; [exact Hscale|].
  split; [destruct (draw_normal mean scale g); reflexivity|].
  split; [exact Hrun|]. cbn. repeat split.
Qed.

(** C9: [choose_action] leaves the engine as it found it, whatever the
    draws and whatever it comes to; and what it comes to depends on the
    engine through [epsilon], [k] and [action_values] only, and otherwise on
    the generator. *)
Theorem choose_action_mutates_nothing (b : bandit) (g : G) :
  (choose_action (b, g)).2.1 = b
  /\ forall b2,
       epsilon b2 = epsilon b -> k b2 = k b -> action_values b2 = action_values b ->
       (choose_action (b2, g)).1 = (choose_action (b, g)).1
       /\ (choose_action (b2, g)).2.2 = (choose_action (b, g)).2.2.
Proof.
  split; [apply choose_action_frame|].
  intros b2 Heps Hk Hvals.
  unfold choose_action, np_random_ranf, np_random_randint. run.
  rewrite Heps.
  destruct (Qle_bool _ _); run; rewrite ?Hk, ?Hvals;
    [destruct (k b <=? 0)|]; split; reflexivity.
Qed.

(** *** Reachable engines

    The engines a program can come to hold: those a valid construction
    returns, and those any call of a method, with any arguments, leaves --
    whatever the call came to. *)
Inductive reachable : bandit -> Prop :=
| reachable_init k0 epsilon0 iters0 initial_reward reward_means0 reward_variances0
    (g : G) (b : bandit) (g' : G) :
    valid_config k0 iters0 reward_means0 reward_variances0 ->
    __init__ k0 epsilon0 iters0 initial_reward reward_means0 reward_variances0 g = (Return b, g') ->
    reachable b
| reachable_choose_action (b : bandit) (g : G) :
    reachable b -> reachable (choose_action (b, g)).2.1
| reachable_get_reward (b : bandit) (g : G) (a : Z) :
    reachable b -> reachable (get_reward a (b, g)).2.1
| reachable_update_action_values (b : bandit) (g : G) (a : Z) (r : Q) :
    reachable b -> reachable (update_action_values a r (b, g)).2.1
| reachable_run_bandit (b : bandit) (g : G) (fuel : nat) :
    reachable b -> reachable (run_bandit fuel (b, g)).2.1.

Lemma index_outcome (len : nat) (i : Z) :
  (exists n, np.index len i = Return n) \/ np.index len i = Raise IndexError.
Proof.
  unfold np.index. destruct (_ && _); [left; eauto|].
  destruct (_ && _); [left; eauto|right; reflexivity].
Qed.

Lemma get_reward_keeps_valid (b : bandit) (g : G) (a : Z) :
  valid b -> valid (get_reward a (b, g)).2.1.
Proof.
  intros Hv. unfold get_reward, np_random_normal. run.
  destruct (np.getitem (reward_means b) a); try exact Hv.
  destruct (np.getitem (reward_variances b) a); try exact Hv.
  destruct (Qle_bool 0 _); run; [|exact Hv].
  apply set_total_reward_valid, Hv.
Qed.

(** Whatever the index, a call of [update_action_values] on a well-formed
    engine either returns, leaving the engine updated at one position, or
    raises [IndexError], leaving it as it was. *)
Lemma update_action_values_any_index (b : bandit) (g : G) (a : Z) (r : Q) :
  valid b ->
  (exists n c v,
     action_chosen_counter b !! n = Some c /\ 0 <= c
     /\ update_action_values a r (b, g) = (Return tt, (updated n c v r b, g)))
  \/ update_action_values a r (b, g) = (Raise IndexError, (b, g)).
Proof.
  intros Hv.
  destruct (index_outcome (length (action_chosen_counter b)) a) as [[n Hn]|Hn].
  - left.
    destruct (update_action_values_position b g a r n) as (c & v & Hc & _ & Hrun).
    { pose proof (valid_action_values b Hv). pose proof (valid_action_chosen_counter b Hv). lia. }
    { exact Hn. }
    assert (0 <= c) as Hc0.
    { pose proof (valid_counters b Hv) as Hall. rewrite Forall_lookup in Hall.
      apply (Hall _ _ Hc). }
    exists n, c, v. split; [exact Hc|]. split; [exact Hc0|].
    rewrite Hrun. destruct (Z.eqb_spec (c + 1) 0); [lia|reflexivity].
  - right. unfold update_action_values, record_chosen, np.getitem. run.
    rewrite Hn. reflexivity.
Qed.

Lemma update_action_values_keeps_valid (b : bandit) (g : G) (a : Z) (r : Q) :
  valid b -> valid (update_action_values a r (b, g)).2.1.
Proof.
  intros Hv.
  destruct (update_action_values_any_index b g a r Hv) as [(n & c & v & _ & Hc & ->)| ->].
  - apply updated_valid; assumption.
  - exact Hv.
Qed.

Lemma while_iteration_keeps_valid (fuel : nat) :
  forall (c : Z) (b : bandit) (g : G),
    valid b -> valid (while_iteration fuel c (b, g)).2.1.
Proof.
  induction fuel as [|fuel IH]; intros c b g Hv; cbn [while_iteration].
  - exact Hv.
  - unfold bind at 1. unfold attr at 1. cbn [fst].
    destruct (c <=? iters b); [|exact Hv].
    rewrite <- (round_then (fun _ => while_iteration fuel (c + 1)) (b, g)).
    destruct (round_valid b g Hv) as (a & r & n & v & g1 & _ & _ & _ & Hn & Hround).
    unfold bind. rewrite Hround. apply IH.
    apply updated_valid; [apply set_total_reward_valid, Hv|exact Hn].
Qed.

Lemma run_bandit_keeps_valid (fuel : nat) (b : bandit) (g : G) :
  valid b -> valid (run_bandit fuel (b, g)).2.1.
Proof.
  intros Hv. unfold run_bandit, bind, attr.
  pose proof (while_iteration_keeps_valid fuel 0 b g Hv) as Hw.
  destruct (while_iteration fuel 0 (b, g)) as [[[]|e|] w]; exact Hw.
Qed.

Lemma reachable_valid (b : bandit) : reachable b -> valid b.
Proof.
  induction 1 as [k0 e0 i0 r0 ms vs g b g' Hcfg Hinit|b g _ IH|b g a _ IH|b g a r _ IH|b g fuel _ IH].
  - apply init_returns in Hinit as [_ ->]. apply constructed_valid, Hcfg.
  - rewrite choose_action_frame. exact IH.
  - apply get_reward_keeps_valid, IH.
  - apply update_action_values_keeps_valid, IH.
  - apply run_bandit_keeps_valid, IH.
Qed.

(** C10: in [update_action_values] the counter is incremented before it
    divides: on a reachable engine and for a valid arm index, the first
    statement returns, the counter the second statement reads is at least 1,
    the division returns and so does the call; and for no index at all does
    the call raise [ZeroDivision]. *)
Theorem update_never_divides_by_zero (b : bandit) (g : G) (a : Z) (reward : Q) :
  reachable b -> 0 <= a < k b ->
  (exists b1 c b2,
     record_chosen a (b, g) = (Return tt, (b1, g))
     /\ np.getitem (action_chosen_counter b1) a = Return c
     /\ 1 <= c
     /\ np.true_divide 1 c = Return (1 / inject_Z c)%Q
     /\ update_estimate a reward (b1, g) = (Return tt, (b2, g))
     /\ update_action_values a reward (b, g) = (Return tt, (b2, g)))
  /\ (forall (a' : Z) (reward' : Q) (g' : G),
        (update_action_values a' reward' (b, g')).1 <> Raise ZeroDivision).
Proof.
  intros Hreach Ha. pose proof (reachable_valid b Hreach) as Hv. split.
  - assert (np.index (length (action_chosen_counter b)) a = Return (Z.to_nat a)) as Hi.
    { apply index_in_range. rewrite (valid_action_chosen_counter b Hv). exact Ha. }
    destruct (record_chosen_position b g a _ Hi) as (c & Hc & Hrec).
    set (b1 := set_action_chosen_counter _ b) in Hrec.
    assert (0 <= c) as Hc0.
    { pose proof (valid_counters b Hv) as Hall. rewrite Forall_lookup in Hall.
      apply (Hall _ _ Hc). }
    assert (np.index (length (action_chosen_counter b1)) a = Return (Z.to_nat a)) as Hi1.
    { subst b1. cbn. rewrite length_insert. exact Hi. }
    assert (np.index (length (action_values b1)) a = Return (Z.to_nat a)) as Hi2.
    { apply index_in_range. subst b1. cbn. rewrite (valid_action_values b Hv). exact Ha. }
    destruct (getitem_position _ _ _ Hi1) as (c1 & Hc1 & Hget).
    assert (c1 = c + 1) as ->.
    { subst b1. cbn in Hc1. rewrite list_lookup_insert_eq in Hc1; [congruence|].
      eapply lookup_lt_Some, Hc. }
    destruct (update_estimate_position b1 g a reward _ _ Hi2 Hi1) as (v & c2 & Hv2 & Hc2 & Hupd).
    assert (c2 = c + 1) as -> by congruence.
    destruct (Z.eqb_spec (c + 1) 0) as [|Hnz]; [lia|].
    eexists b1, (c + 1), _.
    split; [exact Hrec|]. split; [exact Hget|]. split; [lia|].
    split; [unfold np.true_divide; destruct (Z.eqb_spec (c + 1) 0); [lia|reflexivity]|].
    split; [exact Hupd|].
    unfold update_action_values, bind. rewrite Hrec. exact Hupd.
  - intros a' reward' g'.
    destruct (update_action_values_any_index b g' a' reward' Hv)
      as [(n & c & v & _ & _ & ->)| ->]; discriminate.
Qed.

(** *** The estimate of an arm is the mean of its rewards *)

Lemma rewards_for_app (a : Z) (h1 h2 : list (Z * Q)) :
  rewards_for a (h1 ++ h2) = rewards_for a h1 ++ rewards_for a h2.
Proof.
  induction h1 as [|[a' r] h1 IH]; [reflexivity|].
  cbn [app rewards_for]. destruct (a' =? a); cbn [app]; rewrite IH; reflexivity.
Qed.

Lemma sum_rewards_snoc (rs : list Q) (r : Q) :
  (sum_rewards (rs ++ [r]) == sum_rewards rs + r)%Q.
Proof.
  induction rs as [|x rs IH]; cbn [app sum_rewards].
  - ring.
  - rewrite IH. ring.
Qed.

(** The incremental update, from the mean of [rs] to the mean of [rs] and
    one more reward. *)
Lemma mean_reward_snoc (rs : list Q) (v r : Q) :
  (rs <> [] -> v == mean_reward rs)%Q ->
  (v + 1 / inject_Z (Z.of_nat (length rs) + 1) * (r - v) == mean_reward (rs ++ [r]))%Q.
Proof.
  intros Hv. unfold mean_reward in *.
  rewrite sum_rewards_snoc.
  replace (Z.of_nat (length (rs ++ [r]))) with (Z.of_nat (length rs) + 1)
    by (rewrite length_app; cbn [length]; lia).
  rewrite inject_Z_plus. change (inject_Z 1) with 1%Q.
  destruct rs as [|x rs].
  - cbn [length Z.of_nat sum_rewards]. change (inject_Z 0) with 0%Q. field.
  - rewrite Hv by discriminate.
    set (n := inject_Z (Z.of_nat (length (x :: rs)))).
    assert (0 < n)%Q as Hn.
    { subst n. change 0%Q with (inject_Z 0). rewrite <- Zlt_Qlt. cbn [length]. lia. }
    field. split; intros Hc; lra.
Qed.

(** After the updates [hist] of an engine whose estimates are floats, every
    arm's counter is the number of rewards it was delivered, and the estimate
    of an arm that was delivered some is their mean. *)
Definition estimates (hist : list (Z * Q)) (b : bandit) : Prop :=
  action_values_dtype b = Float64
  /\ length (action_values b) = length (action_chosen_counter b)
  /\ forall n,
       (n < length (action_values b))%nat ->
       action_chosen_counter b !! n =
         Some (Z.of_nat (length (rewards_for (Z.of_nat n) hist)))
       /\ (rewards_for (Z.of_nat n) hist <> [] ->
           exists v, action_values b !! n = Some v
                     /\ (v == mean_reward (rewards_for (Z.of_nat n) hist))%Q).

Lemma update_action_values_estimates (hist : list (Z * Q)) (b : bandit) (g : G)
    (a : Z) (r : Q) :
  estimates hist b ->
  0 <= a < Z.of_nat (length (action_values b)) ->
  exists b',
    update_action_values a r (b, g) = (Return tt, (b', g))
    /\ length (action_values b') = length (action_values b)
    /\ estimates (hist ++ [(a, r)]) b'.
Proof.
  intros (Hd & Hlen & Hest) Ha.
  destruct (update_action_values_position b g a r (Z.to_nat a) Hlen)
    as (c & v & Hc & Hv & Hrun).
  { apply index_in_range. rewrite <- Hlen. exact Ha. }
  destruct (Hest (Z.to_nat a)) as [Hcount Hmean]; [lia|].
  rewrite Z2Nat.id in Hcount, Hmean by lia.
  rewrite Hc in Hcount. injection Hcount as ->.
  destruct (Z.eqb_spec (Z.of_nat (length (rewards_for a hist)) + 1) 0) as [|_]; [lia|].
  eexists. split; [exact Hrun|].
  cbn [updated action_values action_chosen_counter set_action_values
       set_action_chosen_counter].
  split; [apply length_insert|]. unfold estimates.
  cbn [updated action_values action_values_dtype action_chosen_counter
       set_action_values set_action_chosen_counter].
  rewrite Hd. cbn [np.cast].
  split; [reflexivity|].
  split; [rewrite !length_insert; exact Hlen|].
  intros n Hn. rewrite length_insert in Hn.
  rewrite rewards_for_app. cbn [rewards_for].
  destruct (Nat.eq_dec n (Z.to_nat a)) as [->|Hne].
  - rewrite Z2Nat.id by lia. rewrite Z.eqb_refl.
    rewrite !list_lookup_insert_eq by lia.
    split.
    + rewrite length_app. cbn [length]. f_equal. lia.
    + intros _. eexists. split; [reflexivity|].
      apply mean_reward_snoc. intros Hrs.
      destruct (Hmean Hrs) as (v' & Hv' & Heq). congruence.
  - destruct (Z.eqb_spec a (Z.of_nat n)) as [->|_]; [lia|].
    rewrite app_nil_r. rewrite !list_lookup_insert_ne by lia.
    apply Hest. exact Hn.
Qed.



End Properties.

(** * The claims on a concrete engine

    The engine of the specification's scenario: two arms, [epsilon = 0],
    rewards 5 and -5 without noise, three iterations, on the tape
    generator. *)

Definition example_engine : bandit :=
  Bandit 2 0 3 [0%Q; 0%Q] Float64 [0; 0] 0 [5%Q; (-5)%Q] [0%Q; 0%Q].

(** A tape whose uniform draws are all 1/2. *)
Definition example_tape : list Z := [2 ^ 52; 7; 2 ^ 52; 7; 2 ^ 52; 7; 2 ^ 52; 7].

Lemma example_config : valid_config 2 3 (Some [5%Q; (-5)%Q]) (Some [0%Q; 0%Q]).
Proof.
  split; [reflexivity|]. split; [reflexivity|]. split.
  - intros ms [= <-]. reflexivity.
  - intros vs [= <-]. split; [reflexivity|]. repeat constructor; discriminate.
Qed.

Lemma example_engine_constructed :
  __init__ 2 0 3 (PyFloat 0) (Some [5%Q; (-5)%Q]) (Some [0%Q; 0%Q]) example_tape =
  (Return example_engine, example_tape).
Proof. reflexivity. Qed.

Lemma example_engine_valid : valid example_engine.
Proof.
  constructor; try reflexivity.
  - repeat constructor; discriminate.
  - repeat constructor; discriminate.
Qed.

Lemma example_engine_reachable : reachable example_engine.
Proof. eapply reachable_init; [exact example_config|exact example_engine_constructed]. Qed.

(** The scenario of the specification: every round selects arm 0 and is
    rewarded 5; the call runs four rounds and returns 20. *)
Example scenario_run_bandit :
  match run_bandit 5 (example_engine, example_tape) with
  | (Return total, (b', _)) =>
      (total == 20)%Q /\ total_reward b' = total
      /\ action_chosen_counter b' = [4; 0]
      /\ Forall2 Qeq (action_values b') [5%Q; 0%Q]
  | _ => False
  end.
Proof.
  vm_compute. split; [reflexivity|]. split; [reflexivity|]. split; [reflexivity|].
  repeat constructor.
Qed.

(** With too little fuel the embedding says so, and says nothing else. *)
Example scenario_out_of_fuel :
  (run_bandit 4 (example_engine, example_tape)).1 = OutOfFuel.
Proof. vm_compute. reflexivity. Qed.

Lemma run_bandit_runs_iters_plus_one_rounds_witness :
  0 < iters example_engine
  /\ iters example_engine + 1 < Z.of_nat 5
  /\ run_bandit 5 (example_engine, example_tape) =
     bind (rounds 4) (fun _ => attr total_reward) (example_engine, example_tape)
  /\ (valid example_engine ->
      exists trace b' g',
        rounds 4 (example_engine, example_tape) = (Return trace, (b', g'))
        /\ Z.of_nat (length trace) = 4
        /\ run_bandit 5 (example_engine, example_tape) =
           (Return (total_reward b'), (b', g'))).
Proof.
  split; [reflexivity|]. split; [reflexivity|].
  apply (run_bandit_runs_iters_plus_one_rounds example_engine example_tape 5);
    reflexivity.
Defined.

(** Two rewards for arm 0 with one for arm 1 in between, from an initial
    estimate of 7: the estimate of arm 0 ends as (1 + 3) / 2. *)
Definition example_updates : list (Z * Q) := [(0, 1%Q); (1, 10%Q); (0, 3%Q)].

Definition example_engine_from_7 : bandit :=
  Bandit 2 0 3 [7%Q; 7%Q] Float64 [0; 0] 0 [5%Q; (-5)%Q] [0%Q; 0%Q].





Example example_updates_mean :
  match update_all example_updates (example_engine_from_7, example_tape) with
  | (Return _, (b', _)) =>
      Forall2 Qeq (action_values b') [2%Q; 10%Q] /\ action_chosen_counter b' = [2; 1]
  | _ => False
  end.
Proof. vm_compute. split; [repeat constructor|reflexivity]. Qed.

Lemma counters_sum_to_rounds_witness :
  valid_config 2 3 (Some [5%Q; (-5)%Q]) (Some [0%Q; 0%Q])
  /\ __init__ 2 0 3 (PyFloat 0) (Some [5%Q; (-5)%Q]) (Some [0%Q; 0%Q]) example_tape =
     (Return example_engine, example_tape)
  /\ exists trace b' g',
       rounds 3 (example_engine, example_tape) = (Return trace, (b', g'))
       /\ k b' = 2
       /\ Z.of_nat (length (reward_means b')) = 2
       /\ Z.of_nat (length (reward_variances b')) = 2
       /\ Z.of_nat (length (action_values b')) = 2
       /\ Z.of_nat (length (action_chosen_counter b')) = 2
       /\ Forall (fun c => 0 <= c) (action_chosen_counter b')
       /\ sum_counter (action_chosen_counter b') = Z.of_nat 3
       /\ (forall g1 : list Z, exists a r c b'' g2,
             round (b', g1) = (Return (a, r), (b'', g2))
             /\ 0 <= a < 2
             /\ action_chosen_counter b' !! Z.to_nat a = Some c
             /\ action_chosen_counter b'' = <[Z.to_nat a := c + 1]> (action_chosen_counter b')).
Proof.
  split; [exact example_config|]. split; [exact example_engine_constructed|].
  exact (counters_sum_to_rounds 2 0 3 (PyFloat 0) (Some [5%Q; (-5)%Q]) (Some [0%Q; 0%Q])
           example_tape example_tape example_engine 3%nat example_tape
           example_config example_engine_constructed).
Defined.

Lemma zero_epsilon_exploits_unless_zero_draw_witness :
  valid example_engine
  /\ (epsilon example_engine == 0)%Q
  /\ ((0 < (draw_ranf example_tape).1)%Q ->
      exists n,
        choose_action (example_engine, example_tape) =
          (Return (Z.of_nat n), (example_engine, (draw_ranf example_tape).2))
        /\ 0 <= Z.of_nat n < k example_engine
        /\ smallest_max_at (action_values example_engine) n)
  /\ (((draw_ranf example_tape).1 == 0)%Q ->
      choose_action (example_engine, example_tape) =
        (Return (draw_randint 0 (k example_engine) (draw_ranf example_tape).2).1,
         (example_engine, (draw_randint 0 (k example_engine) (draw_ranf example_tape).2).2))).
Proof.
  split; [exact example_engine_valid|]. split; [reflexivity|].
  apply (zero_epsilon_exploits_unless_zero_draw example_engine example_tape);
    [exact example_engine_valid|reflexivity].
Defined.

Definition zero_draw_tape : list Z := [0; 1].

(** On a draw of exactly 0 the engine of the scenario, whose [epsilon] is 0,
    explores: it returns arm 1, drawn by [randint], although arm 0 is the
    first maximum of its action values [[0; 0]]. *)
Lemma zero_epsilon_explores_on_zero_draw :
  valid example_engine
  /\ (epsilon example_engine == 0)%Q
  /\ (0 <= (draw_ranf zero_draw_tape).1 /\ (draw_ranf zero_draw_tape).1 < 1)%Q
  /\ choose_action (example_engine, zero_draw_tape) = (Return 1, (example_engine, []))
  /\ np.argmax (action_values example_engine) = Return 0
  /\ ~ smallest_max_at (action_values example_engine) 1.
Proof.
  split; [exact example_engine_valid|]. split; [reflexivity|].
  split; [split; [discriminate|reflexivity]|].
  split; [reflexivity|]. split; [reflexivity|].
  intros [_ Hsmall].
  assert (is_max_at (action_values example_engine) 0) as Hmax.
  { exists 0%Q. split; [reflexivity|].
    intros [|[|j]] x; cbn; intros [= <-]; discriminate. }
  specialize (Hsmall 0%nat Hmax). lia.
Qed.

Lemma init_validates_nothing_witness :
  0 <= 0
  /\ (exists b g',
        __init__ 0 2 (-4) (PyFloat 0) (Some [5%Q]) (Some [0%Q; 0%Q; 0%Q]) example_tape =
          (Return b, g')
        /\ k b = 0 /\ epsilon b = 2%Q /\ iters b = -4
        /\ action_values b = replicate (Z.to_nat 0) (number_value (PyFloat 0))
        /\ action_values_dtype b = number_dtype (PyFloat 0)
        /\ action_chosen_counter b = replicate (Z.to_nat 0) 0
        /\ total_reward b = 0%Q
        /\ (forall ms, Some [5%Q] = Some ms -> reward_means b = ms)
        /\ (forall vs, Some [0%Q; 0%Q; 0%Q] = Some vs -> reward_variances b = vs))
  /\ (forall k', k' < 0 ->
        __init__ k' 2 (-4) (PyFloat 0) (Some [5%Q]) (Some [0%Q; 0%Q; 0%Q]) example_tape =
        (Raise ValueError, example_tape)).
Proof.
  split; [lia|].
  apply (init_validates_nothing 0 2 (-4) (PyFloat 0) (Some [5%Q]) (Some [0%Q; 0%Q; 0%Q])
           example_tape).
  lia.
Defined.

(** The constructor returns an engine with no arm, with an iteration count
    of 0, and with arrays of another length than [k]. *)
Lemma init_accepts_invalid_configurations :
  __init__ 0 0 3 (PyFloat 0) None None example_tape =
    (Return (Bandit 0 0 3 [] Float64 [] 0 [] []), example_tape)
  /\ __init__ 2 0 0 (PyFloat 0) (Some [5%Q; (-5)%Q]) (Some [0%Q; 0%Q]) example_tape =
    (Return (Bandit 2 0 0 [0%Q; 0%Q] Float64 [0; 0] 0 [5%Q; (-5)%Q] [0%Q; 0%Q]), example_tape)
  /\ __init__ 2 0 3 (PyFloat 0) (Some [5%Q]) (Some [0%Q; 0%Q; 0%Q]) example_tape =
    (Return (Bandit 2 0 3 [0%Q; 0%Q] Float64 [0; 0] 0 [5%Q] [0%Q; 0%Q; 0%Q]), example_tape).
Proof. repeat split. Qed.

Lemma exploit_returns_first_argmax_witness :
  action_values example_engine <> []
  /\ (epsilon example_engine < (draw_ranf example_tape).1)%Q
  /\ exists n,
       choose_action (example_engine, example_tape) =
         (Return (Z.of_nat n), (example_engine, (draw_ranf example_tape).2))
       /\ (n < length (action_values example_engine))%nat
       /\ smallest_max_at (action_values example_engine) n.
Proof.
  assert (action_values example_engine <> []) as Hne by discriminate.
  assert (epsilon example_engine < (draw_ranf example_tape).1)%Q as Hlt by reflexivity.
  split; [exact Hne|]. split; [exact Hlt|].
  exact (exploit_returns_first_argmax example_engine example_tape Hne Hlt).
Defined.

Lemma get_reward_only_adds_to_total_witness :
  valid example_engine
  /\ 0 <= 1 < k example_engine
  /\ exists mean scale reward b' g',
       reward_means example_engine !! Z.to_nat 1 = Some mean
       /\ reward_variances example_engine !! Z.to_nat 1 = Some scale
       /\ draw_normal mean scale example_tape = (reward, g')
       /\ get_reward 1 (example_engine, example_tape) = (Return reward, (b', g'))
       /\ total_reward b' = (total_reward example_engine + reward)%Q
       /\ action_values b' = action_values example_engine
       /\ action_chosen_counter b' = action_chosen_counter example_engine
       /\ reward_means b' = reward_means example_engine
       /\ reward_variances b' = reward_variances example_engine
       /\ k b' = k example_engine /\ epsilon b' = epsilon example_engine
       /\ iters b' = iters example_engine
       /\ action_values_dtype b' = action_values_dtype example_engine.
Proof.
  assert (0 <= 1 < k example_engine) as Ha by (cbn; lia).
  split; [exact example_engine_valid|]. split; [exact Ha|].
  exact (get_reward_only_adds_to_total example_engine example_tape 1
           example_engine_valid Ha).
Defined.

Lemma run_bandit_again_accumulates_witness :
  valid_config 2 3 (Some [5%Q; (-5)%Q]) (Some [0%Q; 0%Q])
  /\ __init__ 2 0 3 (PyFloat 0) (Some [5%Q; (-5)%Q]) (Some [0%Q; 0%Q]) example_tape =
     (Return example_engine, example_tape)
  /\ 3 + 1 < Z.of_nat 5
  /\ exists trace returns b' g',
       rounds (2 * Z.to_nat (3 + 1)) (example_engine, example_tape) =
         (Return trace, (b', g'))
       /\ run_bandit_times 5 2 (example_engine, example_tape) = (Return returns, (b', g'))
       /\ length returns = 2%nat
       /\ sum_counter (action_chosen_counter b') = Z.of_nat 2 * (3 + 1)
       /\ total_reward b' = fold_left Qplus (map snd trace) 0%Q
       /\ (forall j, (j < 2)%nat ->
             returns !! j =
             Some (fold_left Qplus (map snd (take ((j + 1) * Z.to_nat (3 + 1)) trace)) 0%Q)).
Proof.
  assert (3 + 1 < Z.of_nat 5) as Hfuel by lia.
  split; [exact example_config|]. split; [exact example_engine_constructed|].
  split; [exact Hfuel|].
  exact (run_bandit_again_accumulates 2 0 3 (PyFloat 0) (Some [5%Q; (-5)%Q]) (Some [0%Q; 0%Q])
           example_tape example_tape example_engine 5 2 example_tape
           example_config example_engine_constructed Hfuel).
Defined.

(** Two calls on the engine of the scenario: eight rounds, and the second
    call returns 40, the rewards of both calls. *)
Example scenario_run_bandit_twice :
  match run_bandit_times 5 2 (example_engine, example_tape) with
  | (Return returns, (b', _)) =>
      Forall2 Qeq returns [20%Q; 40%Q] /\ action_chosen_counter b' = [8; 0]
  | _ => False
  end.
Proof. vm_compute. split; [repeat constructor|reflexivity]. Qed.

Lemma update_never_divides_by_zero_witness :
  reachable example_engine
  /\ 0 <= 0 < k example_engine
  /\ (exists b1 c b2,
        record_chosen 0 (example_engine, example_tape) = (Return tt, (b1, example_tape))
        /\ np.getitem (action_chosen_counter b1) 0 = Return c
        /\ 1 <= c
        /\ np.true_divide 1 c = Return (1 / inject_Z c)%Q
        /\ update_estimate 0 5 (b1, example_tape) = (Return tt, (b2, example_tape))
        /\ update_action_values 0 5 (example_engine, example_tape) =
           (Return tt, (b2, example_tape)))
  /\ (forall (a' : Z) (reward' : Q) (g' : list Z),
        (update_action_values a' reward' (example_engine, g')).1 <> Raise ZeroDivision).
Proof.
  assert (0 <= 0 < k example_engine) as Ha by (cbn; lia).
  split; [exact example_engine_reachable|]. split; [exact Ha|].
  exact (update_never_divides_by_zero example_engine example_tape 0 5
           example_engine_reachable Ha).
Defined.

(** * Further properties of the methods

    What the code does at the edges of its arguments, what it keeps, and how
    its calls compose. *)

Section Further.

Context {G : Type} `{RandomSource G}.

Notation "x <- c ;; f" := (bind c (fun x => f))
  (at level 20, c at level 99, f at level 200, only parsing).
Notation "c ;; f" := (bind c (fun _ => f))
  (at level 100, f at level 200, only parsing, right associativity).

(** ** Indices out of [0, k) *)

Lemma index_negative (len : nat) (i : Z) :
  - Z.of_nat len <= i < 0 ->
  np.index len i = Return (Z.to_nat (i + Z.of_nat len)).
Proof.
  intros Hi. unfold np.index.
  destruct (Z.leb_spec 0 i); [lia|]. cbn [andb].
  destruct (Z.leb_spec (- Z.of_nat len) i); [|lia].
  destruct (Z.ltb_spec i 0); [|lia]. reflexivity.
Qed.

Lemma index_out_of_range (len : nat) (i : Z) :
  i < - Z.of_nat len \/ Z.of_nat len <= i ->
  np.index len i = Raise IndexError.
Proof.
  intros Hi. unfold np.index.
  destruct (Z.leb_spec 0 i); destruct (Z.ltb_spec i (Z.of_nat len)); cbn [andb];
    try lia;
    destruct (Z.leb_spec (- Z.of_nat len) i); destruct (Z.ltb_spec i 0); cbn [andb];
    try lia; reflexivity.
Qed.

Lemma getitem_outcome {A : Type} (arr : list A) (i : Z) :
  (exists x, np.getitem arr i = Return x) \/ np.getitem arr i = Raise IndexError.
Proof.
  destruct (index_outcome (length arr) i) as [[n Hn]|Hn].
  - left. destruct (getitem_position arr i n Hn) as (x & _ & Hx). eauto.
  - right. unfold np.getitem. rewrite Hn. reflexivity.
Qed.

Lemma getitem_out_of_range {A : Type} (arr : list A) (i : Z) :
  i < - Z.of_nat (length arr) \/ Z.of_nat (length arr) <= i ->
  np.getitem arr i = Raise IndexError.
Proof.
  intros Hi. unfold np.getitem. rewrite index_out_of_range by exact Hi. reflexivity.
Qed.

(** X1: on a well-formed engine an index [a] in [-k, 0) counts from the
    end, as everywhere in Python: [get_reward a] and
    [update_action_values a r] do exactly what they do at [a + k]. *)
Theorem negative_arm_counts_from_the_end (b : bandit) (g : G) (a : Z) (r : Q) :
  valid b -> - k b <= a < 0 ->
  get_reward a (b, g) = get_reward (a + k b) (b, g)
  /\ update_action_values a r (b, g) = update_action_values (a + k b) r (b, g).
Proof.
  intros Hv Ha.
  pose proof (valid_reward_means b Hv) as Hm.
  pose proof (valid_reward_variances b Hv) as Hs.
  pose proof (valid_action_chosen_counter b Hv) as Hc.
  pose proof (valid_action_values b Hv) as Hvals.
  split.
  - destruct (get_reward_position b g a (Z.to_nat (a + k b)) (Z.to_nat (a + k b)))
      as (mean & scale & Hmean & Hscale & ->);
      [rewrite <- Hm; apply index_negative; lia
      |rewrite <- Hs; apply index_negative; lia|].
    destruct (get_reward_position b g (a + k b) (Z.to_nat (a + k b)) (Z.to_nat (a + k b)))
      as (mean' & scale' & Hmean' & Hscale' & ->);
      [apply index_in_range; lia|apply index_in_range; lia|].
    assert (mean' = mean) as -> by congruence.
    assert (scale' = scale) as -> by congruence.
    reflexivity.
  - destruct (update_action_values_position b g a r (Z.to_nat (a + k b)))
      as (c & v & Hcnt & Hval & ->);
      [lia|rewrite <- Hc; apply index_negative; lia|].
    destruct (update_action_values_position b g (a + k b) r (Z.to_nat (a + k b)))
      as (c' & v' & Hcnt' & Hval' & ->);
      [lia|apply index_in_range; lia|].
    assert (c' = c) as -> by congruence.
    assert (v' = v) as -> by congruence.
    reflexivity.
Qed.

(** X2: an index outside the range of [reward_means], or of
    [reward_variances], makes [get_reward] raise [IndexError] before anything
    is drawn or added: the engine and the generator are as they were. *)
Theorem get_reward_index_error (b : bandit) (g : G) (a : Z) :
  (a < - Z.of_nat (length (reward_means b)) \/ Z.of_nat (length (reward_means b)) <= a)
  \/ (a < - Z.of_nat (length (reward_variances b))
      \/ Z.of_nat (length (reward_variances b)) <= a) ->
  get_reward a (b, g) = (Raise IndexError, (b, g)).
Proof.
  intros [Ha|Ha]; unfold get_reward; run.
  - rewrite getitem_out_of_range by exact Ha. reflexivity.
  - destruct (getitem_outcome (reward_means b) a) as [[x ->]| ->]; [|reflexivity].
    cbn [fst snd]. rewrite getitem_out_of_range by exact Ha. reflexivity.
Qed.

(** X3: an index outside the range of [action_chosen_counter] makes
    [update_action_values] raise [IndexError] at its first statement: no
    counter and no estimate has changed. *)
Theorem update_action_values_index_error (b : bandit) (g : G) (a : Z) (r : Q) :
  a < - Z.of_nat (length (action_chosen_counter b))
  \/ Z.of_nat (length (action_chosen_counter b)) <= a ->
  update_action_values a r (b, g) = (Raise IndexError, (b, g)).
Proof.
  intros Ha. unfold update_action_values, record_chosen. run.
  rewrite getitem_out_of_range by exact Ha. reflexivity.
Qed.

(** X4: when the entry of [reward_variances] for the arm is negative,
    [get_reward] raises the [ValueError] of [np.random.normal]; nothing has
    been drawn and [total_reward] has not changed. *)
Theorem get_reward_negative_scale (b : bandit) (g : G) (a : Z) (scale : Q) :
  0 <= a < Z.of_nat (length (reward_means b)) ->
  reward_variances b !! Z.to_nat a = Some scale ->
  (scale < 0)%Q ->
  get_reward a (b, g) = (Raise ValueError, (b, g)).
Proof.
  intros Ha Hscale Hneg.
  pose proof (lookup_lt_Some _ _ _ Hscale) as Hlt.
  destruct (get_reward_position b g a (Z.to_nat a) (Z.to_nat a))
    as (mean & scale' & _ & Hscale' & ->);
    [apply index_in_range; lia|apply index_in_range; lia|].
  assert (scale' = scale) as -> by congruence.
  destruct (Qle_bool 0 scale) eqn:Hle; [|reflexivity].
  apply Qle_bool_iff in Hle. lra.
Qed.

(** ** The loop at the edges of [iters] *)

(** X5: with a negative [iters] the loop condition fails at once: the call
    runs no round, changes nothing, draws nothing and returns [total_reward]
    as it is. *)
Theorem run_bandit_negative_iters (b : bandit) (g : G) (fuel : nat) :
  iters b < 0 -> (0 < fuel)%nat ->
  run_bandit fuel (b, g) = (Return (total_reward b), (b, g)).
Proof.
  intros Hneg Hfuel.
  rewrite (run_bandit_rounds fuel (b, g)) by (cbn [fst]; lia). cbn [fst].
  replace (Z.to_nat (iters b + 1)) with 0%nat by lia. reflexivity.
Qed.

(** X6: with [iters = 0] the call still runs a round, and one only. *)
Theorem run_bandit_zero_iters (b : bandit) (g : G) (fuel : nat) :
  iters b = 0 -> (1 < fuel)%nat ->
  run_bandit fuel (b, g) = (round ;; attr total_reward) (b, g).
Proof.
  intros Hzero Hfuel.
  rewrite (run_bandit_rounds fuel (b, g)) by (cbn [fst]; lia). cbn [fst].
  rewrite Hzero. change (Z.to_nat (0 + 1)) with 1%nat. cbn [rounds].
  unfold bind, ret. destruct (round (b, g)) as [[p|e|] w]; reflexivity.
Qed.

(** X7: an engine constructed with no arm cannot choose: [choose_action]
    raises [ValueError] on either branch, and a call of [run_bandit] with
    [0 <= iters] raises it in its first round, with the engine as it was
    constructed. *)
Theorem no_arm_no_round (epsilon0 : Q) (iters0 : Z) (initial_reward : number)
    (reward_means0 reward_variances0 : option (list Q)) (g0 g0' : G) (b : bandit)
    (g : G) (fuel : nat) :
  __init__ 0 epsilon0 iters0 initial_reward reward_means0 reward_variances0 g0 = (Return b, g0') ->
  0 <= iters0 -> (0 < fuel)%nat ->
  choose_action (b, g) = (Raise ValueError, (b, (draw_ranf g).2))
  /\ run_bandit fuel (b, g) = (Raise ValueError, (b, (draw_ranf g).2)).
Proof.
  intros Hinit Hiters Hfuel. apply init_returns in Hinit as [_ ->].
  set (b := constructed _ _ _ _ _ _ _).
  assert (choose_action (b, g) = (Raise ValueError, (b, (draw_ranf g).2))) as Hchoose.
  { destruct (Qlt_le_dec (epsilon b) (draw_ranf g).1) as [Hlt|Hle].
    - rewrite choose_action_exploit by exact Hlt. reflexivity.
    - rewrite choose_action_explore by exact Hle. reflexivity. }
  split; [exact Hchoose|].
  destruct fuel as [|fuel]; [lia|].
  unfold run_bandit. cbn [while_iteration]. unfold bind, attr. cbn [fst].
  change (iters b) with iters0.
  destruct (Z.leb_spec 0 iters0); [|lia].
  rewrite Hchoose. reflexivity.
Qed.

(** ** [choose_action] at the edges of [epsilon] *)

(** X8: on a well-formed engine [choose_action] returns, whatever is drawn,
    and the arm it returns is in [0, k). *)
Theorem choose_action_in_range (b : bandit) (g : G) :
  valid b ->
  exists a g', choose_action (b, g) = (Return a, (b, g')) /\ 0 <= a < k b.
Proof. apply choose_action_valid. Qed.

(** X9: with [1 <= epsilon] every call explores: the uniform draw is below
    1, so the arm returned is the one [randint] draws, whatever the action
    values are. *)
Theorem epsilon_one_always_explores (b : bandit) (g : G) :
  (1 <= epsilon b)%Q -> 0 < k b ->
  choose_action (b, g) =
  (Return (draw_randint 0 (k b) (draw_ranf g).2).1,
   (b, (draw_randint 0 (k b) (draw_ranf g).2).2)).
Proof.
  intros Heps Hk. destruct (draw_ranf_range g) as [_ Hlt].
  rewrite choose_action_explore by lra.
  destruct (Z.leb_spec (k b) 0); [lia|reflexivity].
Qed.

(** X10: with a negative [epsilon] no call explores: the uniform draw is at
    least 0, so the call comes to what [np.argmax] of the action values comes
    to, and [randint] is not drawn from. *)
Theorem negative_epsilon_always_exploits (b : bandit) (g : G) :
  (epsilon b < 0)%Q ->
  choose_action (b, g) = (np.argmax (action_values b), (b, (draw_ranf g).2)).
Proof.
  intros Heps. destruct (draw_ranf_range g) as [Hle _].
  apply choose_action_exploit. lra.
Qed.

(** ** What [update_action_values] leaves alone *)

(** X11: on a well-formed engine and for a valid arm,
    [update_action_values] returns and touches one position of
    [action_chosen_counter] and of [action_values]: the counters and the
    estimates of the other arms, [total_reward], the configuration and the
    generator are as they were. *)
Theorem update_action_values_other_arms (b : bandit) (g : G) (a : Z) (r : Q) :
  valid b -> 0 <= a < k b ->
  exists b',
    update_action_values a r (b, g) = (Return tt, (b', g))
    /\ total_reward b' = total_reward b
    /\ same_config b b'
    /\ forall n, n <> Z.to_nat a ->
         action_chosen_counter b' !! n = action_chosen_counter b !! n
         /\ action_values b' !! n = action_values b !! n.
Proof.
  intros Hv Ha.
  destruct (update_action_values_valid b g a r Hv Ha) as (c & v & _ & _ & _ & Hrun).
  eexists. split; [exact Hrun|]. split; [reflexivity|].
  split; [repeat split|].
  intros n Hn. cbn [updated action_chosen_counter action_values set_action_values
                    set_action_chosen_counter].
  rewrite !list_lookup_insert_ne by congruence. split; reflexivity.
Qed.

(** ** Engines that cannot fail *)

(** X12: an engine constructed with [0 < k0] and the default arrays runs to
    the end, for every [epsilon], every [iters] and every draw: [run_bandit]
    returns the [total_reward] of the engine it leaves. *)
Theorem default_engine_runs (k0 : Z) (epsilon0 : Q) (iters0 : Z) (initial_reward : number)
    (g0 g0' : G) (b : bandit) (g : G) (fuel : nat) :
  0 < k0 ->
  __init__ k0 epsilon0 iters0 initial_reward None None g0 = (Return b, g0') ->
  (Z.to_nat (iters0 + 1) < fuel)%nat ->
  exists b' g',
    run_bandit fuel (b, g) = (Return (total_reward b'), (b', g'))
    /\ sum_counter (action_chosen_counter b') = Z.of_nat (Z.to_nat (iters0 + 1)).
Proof.
  intros Hk Hinit Hfuel. apply init_returns in Hinit as [_ ->].
  set (b := constructed _ _ _ _ _ _ _).
  assert (valid b) as Hv.
  { subst b. constructor; cbn.
    - exact Hk.
    - rewrite length_replicate. lia.
    - rewrite length_replicate. lia.
    - rewrite draw_normal_vector_length. lia.
    - rewrite length_replicate. lia.
    - apply Forall_replicate_intro. lia.
    - apply Forall_replicate_intro. discriminate. }
  destruct (rounds_valid (Z.to_nat (iters0 + 1)) b g Hv)
    as (trace & b' & g' & Hrounds & _ & _ & _ & Hsum & _).
  exists b', g'. split.
  - rewrite (run_bandit_rounds fuel (b, g)) by exact Hfuel. cbn [fst].
    change (iters b) with iters0. unfold bind, attr. rewrite Hrounds. reflexivity.
  - rewrite Hsum. subst b. cbn [constructed action_chosen_counter].
    rewrite sum_counter_replicate_zero. lia.
Qed.

(** ** The estimates after rounds *)

Lemma round_estimates (hist : list (Z * Q)) (b : bandit) (g : G) :
  valid b -> estimates hist b ->
  exists a r b' g',
    round (b, g) = (Return (a, r), (b', g'))
    /\ valid b'
    /\ length (action_values b') = length (action_values b)
    /\ estimates (hist ++ [(a, r)]) b'.
Proof.
  intros Hv Hest.
  destruct (round_valid b g Hv) as (a & r & c & v & g' & Ha & Hc & Hval & Hc0 & Hround).
  set (b1 := set_total_reward (total_reward b + r)%Q b) in *.
  assert (valid b1) as Hv1 by (apply set_total_reward_valid, Hv).
  destruct (update_action_values_estimates hist b1 g' a r Hest) as (b' & Hupd & Hlen & Hest').
  { cbn. rewrite (valid_action_values b Hv). exact Ha. }
  destruct (update_action_values_valid b1 g' a r Hv1 Ha) as (c' & v' & Hc' & Hval' & _ & Hupd').
  cbn in Hc', Hval'.
  assert (c' = c) as -> by congruence. assert (v' = v) as -> by congruence.
  rewrite Hupd' in Hupd. injection Hupd as Heq.
  exists a, r, b', g'. rewrite <- Heq.
  split; [exact Hround|]. split; [apply updated_valid; assumption|].
  rewrite Heq. split; [exact Hlen|exact Hest'].
Qed.

Lemma rounds_estimates (n : nat) :
  forall (hist : list (Z * Q)) (b : bandit) (g : G),
    valid b -> estimates hist b ->
    exists trace b' g',
      rounds n (b, g) = (Return trace, (b', g'))
      /\ length (action_values b') = length (action_values b)
      /\ estimates (hist ++ trace) b'.
Proof.
  induction n as [|n IH]; intros hist b g Hv Hest.
  - exists [], b, g. rewrite app_nil_r.
    split; [reflexivity|]. split; [reflexivity|exact Hest].
  - destruct (round_estimates hist b g Hv Hest)
      as (a & r & b1 & g1 & Hround & Hv1 & Hlen1 & Hest1).
    destruct (IH _ b1 g1 Hv1 Hest1) as (trace & b' & g' & Hrounds & Hlen & Hest').
    exists ((a, r) :: trace), b', g'. split; [|split].
    + cbn [rounds]. unfold bind, ret. rewrite Hround, Hrounds. reflexivity.
    + congruence.
    + rewrite <- app_assoc in Hest'. exact Hest'.
Qed.

(** X13: after a valid construction with a float [initial_reward] and any
    number of rounds, the counter of every arm is the number of rounds that
    chose it, and the estimate of an arm that was chosen at least once is the
    arithmetic mean of the rewards those rounds observed. *)
Theorem rounds_estimate_observed_means (k0 : Z) (epsilon0 : Q) (iters0 : Z)
    (initial_reward : Q) (reward_means0 reward_variances0 : option (list Q))
    (g0 g0' : G) (b : bandit) (n : nat) (g : G) :
  valid_config k0 iters0 reward_means0 reward_variances0 ->
  __init__ k0 epsilon0 iters0 (PyFloat initial_reward) reward_means0 reward_variances0 g0 =
    (Return b, g0') ->
  exists trace b' g',
    rounds n (b, g) = (Return trace, (b', g'))
    /\ forall a, 0 <= a < k0 ->
         action_chosen_counter b' !! Z.to_nat a =
           Some (Z.of_nat (length (rewards_for a trace)))
         /\ (rewards_for a trace <> [] ->
             exists v, action_values b' !! Z.to_nat a = Some v
                       /\ (v == mean_reward (rewards_for a trace))%Q).
Proof.
  intros Hcfg Hinit. apply init_returns in Hinit as [Hk ->].
  pose proof (constructed_valid k0 epsilon0 iters0 (PyFloat initial_reward) _ _ g0 Hcfg)
    as Hv.
  set (b := constructed _ _ _ _ _ _ _) in *.
  assert (length (action_values b) = Z.to_nat k0) as Hlen
    by (subst b; cbn; apply length_replicate).
  assert (estimates [] b) as Hest.
  { split; [reflexivity|].
    split; [subst b; cbn; rewrite !length_replicate; reflexivity|].
    intros m Hm. split; [|intros Hc; contradiction Hc; reflexivity].
    subst b. cbn in Hm |- *. rewrite length_replicate in Hm.
    apply lookup_replicate_2. exact Hm. }
  destruct (rounds_estimates n [] b g Hv Hest)
    as (trace & b' & g' & Hrounds & Hlen' & (_ & _ & Hest')).
  exists trace, b', g'. split; [exact Hrounds|].
  intros a Ha. destruct (Hest' (Z.to_nat a)) as [Hcount Hmean]; [lia|].
  rewrite Z2Nat.id in Hcount, Hmean by lia. cbn [app] in Hcount, Hmean.
  split; [exact Hcount|exact Hmean].
Qed.

(** ** The total reward and the estimates *)

(** The sum over the arms of counter times estimate. *)
Fixpoint weighted_sum (cs : list Z) (vs : list Q) : Q :=
  match cs, vs with
  | c :: cs', v :: vs' => (inject_Z c * v + weighted_sum cs' vs')%Q
  | _, _ => 0%Q
  end.

Lemma weighted_sum_insert (cs : list Z) (vs : list Q) (n : nat) (c c' : Z) (v v' : Q) :
  cs !! n = Some c -> vs !! n = Some v ->
  (weighted_sum (<[n := c']> cs) (<[n := v']> vs)
   == weighted_sum cs vs - inject_Z c * v + inject_Z c' * v')%Q.
Proof.
  revert vs n. induction cs as [|x cs IH]; intros [|y vs] [|n] Hc Hv; try discriminate.
  - injection Hc as ->. injection Hv as ->. cbn. ring.
  - change ((x :: cs) !! S n) with (cs !! n) in Hc.
    change ((y :: vs) !! S n) with (vs !! n) in Hv.
    change (<[S n := c']> (x :: cs)) with (x :: <[n := c']> cs).
    change (<[S n := v']> (y :: vs)) with (y :: <[n := v']> vs).
    cbn [weighted_sum]. rewrite (IH vs n Hc Hv). ring.
Qed.

Lemma weighted_sum_replicate_zero (n : nat) (v : Q) :
  (weighted_sum (replicate n 0%Z) (replicate n v) == 0)%Q.
Proof.
  induction n as [|n IH]; [reflexivity|].
  cbn [replicate weighted_sum]. rewrite IH. change (inject_Z 0) with 0%Q. ring.
Qed.

Lemma round_weighted_sum (b : bandit) (g : G) :
  valid b ->
  action_values_dtype b = Float64 ->
  (total_reward b == weighted_sum (action_chosen_counter b) (action_values b))%Q ->
  exists p b' g',
    round (b, g) = (Return p, (b', g')) /\ valid b'
    /\ action_values_dtype b' = Float64
    /\ (total_reward b' == weighted_sum (action_chosen_counter b') (action_values b'))%Q.
Proof.
  intros Hv Hd Hinv.
  destruct (round_valid b g Hv) as (a & r & c & v & g' & Ha & Hc & Hval & Hc0 & Hround).
  eexists (a, r), _, g'. split; [exact Hround|].
  split; [apply updated_valid; [apply set_total_reward_valid, Hv|exact Hc0]|].
  split; [exact Hd|].
  cbn [updated total_reward action_chosen_counter action_values action_values_dtype
       set_action_values set_action_chosen_counter set_total_reward].
  rewrite Hd. cbn [np.cast].
  rewrite (weighted_sum_insert _ _ _ c _ v) by assumption.
  rewrite Hinv, inject_Z_plus. change (inject_Z 1) with 1%Q.
  assert (0 <= inject_Z c)%Q as Hc0'.
  { change 0%Q with (inject_Z 0). rewrite <- Zle_Qle. exact Hc0. }
  field. lra.
Qed.

(** X14: after a valid construction with a float [initial_reward] and any
    number of rounds, [total_reward] is the sum over the arms of the counter
    of the arm times its estimate, in exact arithmetic. *)
Theorem total_reward_is_weighted_sum (k0 : Z) (epsilon0 : Q) (iters0 : Z)
    (initial_reward : Q) (reward_means0 reward_variances0 : option (list Q))
    (g0 g0' : G) (b : bandit) (n : nat) (g : G) :
  valid_config k0 iters0 reward_means0 reward_variances0 ->
  __init__ k0 epsilon0 iters0 (PyFloat initial_reward) reward_means0 reward_variances0 g0 =
    (Return b, g0') ->
  exists trace b' g',
    rounds n (b, g) = (Return trace, (b', g'))
    /\ (total_reward b' == weighted_sum (action_chosen_counter b') (action_values b'))%Q.
Proof.
  intros Hcfg Hinit. apply init_returns in Hinit as [Hk ->].
  pose proof (constructed_valid k0 epsilon0 iters0 (PyFloat initial_reward) _ _ g0 Hcfg)
    as Hv.
  set (b := constructed _ _ _ _ _ _ _) in *.
  assert (total_reward b == weighted_sum (action_chosen_counter b) (action_values b))%Q
    as Hinv by (subst b; cbn; rewrite weighted_sum_replicate_zero; reflexivity).
  assert (action_values_dtype b = Float64) as Hd by reflexivity.
  clearbody b. revert b g Hv Hd Hinv.
  induction n as [|n IH]; intros b g Hv Hd Hinv.
  - exists [], b, g. split; [reflexivity|exact Hinv].
  - destruct (round_weighted_sum b g Hv Hd Hinv)
      as (p & b1 & g1 & Hround & Hv1 & Hd1 & Hinv1).
    destruct (IH b1 g1 Hv1 Hd1 Hinv1) as (trace & b' & g' & Hrounds & Hinv').
    exists (p :: trace), b', g'. split; [|exact Hinv'].
    cbn [rounds]. unfold bind, ret. rewrite Hround, Hrounds. reflexivity.
Qed.

(** ** A round that fails *)

Lemma rounds_raise (n m : nat) (w w1 w2 : world G) (t : list (Z * Q)) (e : exn) :
  rounds n w = (Return t, w1) ->
  round w1 = (Raise e, w2) ->
  rounds (n + S m) w = (Raise e, w2).
Proof.
  revert w t. induction n as [|n IH]; intros w t Hn Hfail.
  - cbn in Hn. injection Hn as <- <-.
    cbn [Nat.add rounds]. unfold bind. rewrite Hfail. reflexivity.
  - cbn [rounds Nat.add] in Hn |- *. unfold bind, ret in Hn |- *.
    destruct (round w) as [[p|e'|] w']; try discriminate.
    destruct (rounds n w') as [[t'|e'|] w''] eqn:Hrounds; try discriminate.
    injection Hn as <- <-.
    rewrite (IH w' t' Hrounds Hfail). reflexivity.
Qed.

(** X15: when a round of [run_bandit] raises, the call raises the same
    exception there and then, and nothing is rolled back: the engine is the
    one the failing round left, with the rewards and updates of the rounds
    before it. *)
Theorem run_bandit_aborts_without_rollback (fuel n : nat) (w w1 w2 : world G)
    (t : list (Z * Q)) (e : exn) :
  rounds n w = (Return t, w1) ->
  round w1 = (Raise e, w2) ->
  (n < Z.to_nat (iters w.1 + 1))%nat ->
  (Z.to_nat (iters w.1 + 1) < fuel)%nat ->
  run_bandit fuel w = (Raise e, w2).
Proof.
  intros Hn Hfail Hlt Hfuel.
  rewrite run_bandit_rounds by exact Hfuel.
  replace (Z.to_nat (iters w.1 + 1))
    with (n + S (Z.to_nat (iters w.1 + 1) - S n))%nat by lia.
  unfold bind. rewrite (rounds_raise n _ w w1 w2 t e Hn Hfail). reflexivity.
Qed.

(** ** Arms that were never chosen, and the first choice *)

(** The arms that were delivered no reward in [hist] still have the
    estimate [init]. *)
Definition untouched (init : Q) (hist : list (Z * Q)) (b : bandit) : Prop :=
  forall m, (m < length (action_values b))%nat ->
    rewards_for (Z.of_nat m) hist = [] -> action_values b !! m = Some init.

Lemma round_untouched (init : Q) (hist : list (Z * Q)) (b : bandit) (g : G) :
  valid b -> untouched init hist b ->
  exists a r b' g',
    round (b, g) = (Return (a, r), (b', g'))
    /\ valid b'
    /\ untouched init (hist ++ [(a, r)]) b'.
Proof.
  intros Hv Hun.
  destruct (round_valid b g Hv) as (a & r & c & v & g' & Ha & Hc & Hval & Hc0 & Hround).
  eexists a, r, _, g'. split; [exact Hround|].
  split; [apply updated_valid; [apply set_total_reward_valid, Hv|exact Hc0]|].
  intros m Hm Hnone.
  cbn [updated action_values set_action_values set_action_chosen_counter
       set_total_reward] in Hm |- *.
  rewrite length_insert in Hm.
  rewrite rewards_for_app in Hnone. apply app_eq_nil in Hnone as [Hhist Hlast].
  cbn [rewards_for] in Hlast.
  destruct (Z.eqb_spec a (Z.of_nat m)) as [->|Hne]; [discriminate|].
  rewrite list_lookup_insert_ne by lia.
  apply Hun; assumption.
Qed.

Lemma rounds_untouched (init : Q) (n : nat) :
  forall (hist : list (Z * Q)) (b : bandit) (g : G),
    valid b -> untouched init hist b ->
    exists trace b' g',
      rounds n (b, g) = (Return trace, (b', g'))
      /\ length (action_values b') = length (action_values b)
      /\ untouched init (hist ++ trace) b'.
Proof.
  induction n as [|n IH]; intros hist b g Hv Hun.
  - exists [], b, g. rewrite app_nil_r.
    split; [reflexivity|]. split; [reflexivity|exact Hun].
  - destruct (round_untouched init hist b g Hv Hun)
      as (a & r & b1 & g1 & Hround & Hv1 & Hun1).
    destruct (IH _ b1 g1 Hv1 Hun1) as (trace & b' & g' & Hrounds & Hlen & Hun').
    exists ((a, r) :: trace), b', g'. split; [|split].
    + cbn [rounds]. unfold bind, ret. rewrite Hround, Hrounds. reflexivity.
    + rewrite Hlen. pose proof (valid_action_values b1 Hv1) as H1.
      pose proof (valid_action_values b Hv) as H0.
      pose proof (round_same_config (b, g)) as (Hk & _).
      rewrite Hround in Hk. cbn [fst snd] in Hk. lia.
    + rewrite <- app_assoc in Hun'. exact Hun'.
Qed.

(** X16: after a valid construction and any number of rounds, an arm that
    no round chose still has [initial_reward] as its estimate. *)
Theorem unchosen_arm_keeps_initial_reward (k0 : Z) (epsilon0 : Q) (iters0 : Z)
    (initial_reward : number) (reward_means0 reward_variances0 : option (list Q))
    (g0 g0' : G) (b : bandit) (n : nat) (g : G) :
  valid_config k0 iters0 reward_means0 reward_variances0 ->
  __init__ k0 epsilon0 iters0 initial_reward reward_means0 reward_variances0 g0 = (Return b, g0') ->
  exists trace b' g',
    rounds n (b, g) = (Return trace, (b', g'))
    /\ forall a, 0 <= a < k0 -> rewards_for a trace = [] ->
         action_values b' !! Z.to_nat a = Some (number_value initial_reward).
Proof.
  intros Hcfg Hinit. apply init_returns in Hinit as [Hk ->].
  pose proof (constructed_valid k0 epsilon0 iters0 initial_reward _ _ g0 Hcfg) as Hv.
  set (b := constructed _ _ _ _ _ _ _) in *.
  assert (length (action_values b) = Z.to_nat k0) as Hlen
    by (subst b; cbn; apply length_replicate).
  assert (untouched (number_value initial_reward) [] b) as Hun.
  { intros m Hm _. subst b. cbn in Hm |- *. rewrite length_replicate in Hm.
    apply lookup_replicate_2. exact Hm. }
  destruct (rounds_untouched (number_value initial_reward) n [] b g Hv Hun)
    as (trace & b' & g' & Hrounds & Hlen' & Hun').
  exists trace, b', g'. split; [exact Hrounds|].
  intros a Ha Hnone. apply Hun'; [lia|].
  rewrite Z2Nat.id by lia. exact Hnone.
Qed.

Lemma argmax_scan_replicate (x : Q) (n i : nat) :
  np.argmax_scan x 0%nat i (replicate n x) = 0%nat.
Proof.
  revert i. induction n as [|n IH]; intros i; [reflexivity|].
  cbn [replicate np.argmax_scan].
  assert (Qle_bool x x = true) as -> by (apply Qle_bool_iff, Qle_refl).
  apply IH.
Qed.

(** X17: on a freshly constructed engine with at least one arm all the
    estimates are equal, so a call of [choose_action] that exploits returns
    arm 0. *)
Theorem first_exploit_chooses_arm_zero (k0 : Z) (epsilon0 : Q) (iters0 : Z)
    (initial_reward : number) (reward_means0 reward_variances0 : option (list Q))
    (g0 g0' : G) (b : bandit) (g : G) :
  0 < k0 ->
  __init__ k0 epsilon0 iters0 initial_reward reward_means0 reward_variances0 g0 = (Return b, g0') ->
  (epsilon0 < (draw_ranf g).1)%Q ->
  choose_action (b, g) = (Return 0, (b, (draw_ranf g).2)).
Proof.
  intros Hk Hinit Hlt. apply init_returns in Hinit as [_ ->].
  rewrite choose_action_exploit by exact Hlt.
  cbn [constructed action_values].
  destruct (Z.to_nat k0) as [|n] eqn:Hn; [lia|].
  cbn [replicate np.argmax]. rewrite argmax_scan_replicate. reflexivity.
Qed.

(** ** Estimates in an array of integers *)




End Further.

(** * The further properties on concrete engines *)

Lemma negative_arm_counts_from_the_end_witness :
  valid example_engine
  /\ - k example_engine <= -1 < 0
  /\ get_reward (-1) (example_engine, example_tape) =
     get_reward (-1 + k example_engine) (example_engine, example_tape)
  /\ update_action_values (-1) 5 (example_engine, example_tape) =
     update_action_values (-1 + k example_engine) 5 (example_engine, example_tape).
Proof.
  assert (- k example_engine <= -1 < 0) as Ha by (cbn; lia).
  split; [exact example_engine_valid|]. split; [exact Ha|].
  exact (negative_arm_counts_from_the_end example_engine example_tape (-1) 5
           example_engine_valid Ha).
Defined.

Lemma get_reward_index_error_witness :
  ((2 < - Z.of_nat (length (reward_means example_engine))
    \/ Z.of_nat (length (reward_means example_engine)) <= 2)
   \/ (2 < - Z.of_nat (length (reward_variances example_engine))
       \/ Z.of_nat (length (reward_variances example_engine)) <= 2))
  /\ get_reward 2 (example_engine, example_tape) =
     (Raise IndexError, (example_engine, example_tape)).
Proof.
  assert ((2 < - Z.of_nat (length (reward_means example_engine))
           \/ Z.of_nat (length (reward_means example_engine)) <= 2)
          \/ (2 < - Z.of_nat (length (reward_variances example_engine))
              \/ Z.of_nat (length (reward_variances example_engine)) <= 2)) as Ha
    by (left; right; cbn; lia).
  split; [exact Ha|].
  exact (get_reward_index_error example_engine example_tape 2 Ha).
Defined.

Lemma update_action_values_index_error_witness :
  (-3 < - Z.of_nat (length (action_chosen_counter example_engine))
   \/ Z.of_nat (length (action_chosen_counter example_engine)) <= -3)
  /\ update_action_values (-3) 5 (example_engine, example_tape) =
     (Raise IndexError, (example_engine, example_tape)).
Proof.
  assert (-3 < - Z.of_nat (length (action_chosen_counter example_engine))
          \/ Z.of_nat (length (action_chosen_counter example_engine)) <= -3) as Ha
    by (left; cbn; lia).
  split; [exact Ha|].
  exact (update_action_values_index_error example_engine example_tape (-3) 5 Ha).
Defined.

(** An engine whose second arm has a negative scale. *)
Definition negative_scale_engine : bandit :=
  Bandit 2 0 3 [0%Q; 0%Q] Float64 [0; 0] 0 [5%Q; (-5)%Q] [0%Q; (-1)%Q].

Lemma get_reward_negative_scale_witness :
  0 <= 1 < Z.of_nat (length (reward_means negative_scale_engine))
  /\ reward_variances negative_scale_engine !! Z.to_nat 1 = Some (-1)%Q
  /\ (-1 < 0)%Q
  /\ get_reward 1 (negative_scale_engine, example_tape) =
     (Raise ValueError, (negative_scale_engine, example_tape)).
Proof.
  assert (0 <= 1 < Z.of_nat (length (reward_means negative_scale_engine))) as Ha
    by (cbn; lia).
  assert (-1 < 0)%Q as Hneg by reflexivity.
  split; [exact Ha|]. split; [reflexivity|]. split; [exact Hneg|].
  exact (get_reward_negative_scale negative_scale_engine example_tape 1 (-1)%Q
           Ha eq_refl Hneg).
Defined.

Definition negative_iters_engine : bandit :=
  Bandit 2 0 (-1) [0%Q; 0%Q] Float64 [0; 0] 0 [5%Q; (-5)%Q] [0%Q; 0%Q].

Lemma run_bandit_negative_iters_witness :
  iters negative_iters_engine < 0
  /\ (0 < 1)%nat
  /\ run_bandit 1 (negative_iters_engine, example_tape) =
     (Return (total_reward negative_iters_engine), (negative_iters_engine, example_tape)).
Proof.
  assert (iters negative_iters_engine < 0) as Hneg by reflexivity.
  assert (0 < 1)%nat as Hfuel by lia.
  split; [exact Hneg|]. split; [exact Hfuel|].
  exact (run_bandit_negative_iters negative_iters_engine example_tape 1 Hneg Hfuel).
Defined.

Definition zero_iters_engine : bandit :=
  Bandit 2 0 0 [0%Q; 0%Q] Float64 [0; 0] 0 [5%Q; (-5)%Q] [0%Q; 0%Q].

Lemma run_bandit_zero_iters_witness :
  iters zero_iters_engine = 0
  /\ (1 < 2)%nat
  /\ run_bandit 2 (zero_iters_engine, example_tape) =
     bind round (fun _ => attr total_reward) (zero_iters_engine, example_tape).
Proof.
  assert (1 < 2)%nat as Hfuel by lia.
  split; [reflexivity|]. split; [exact Hfuel|].
  exact (run_bandit_zero_iters zero_iters_engine example_tape 2 eq_refl Hfuel).
Defined.

Definition no_arm_engine : bandit := Bandit 0 0 3 [] Float64 [] 0 [] [].

Lemma no_arm_no_round_witness :
  __init__ 0 0 3 (PyFloat 0) None None example_tape = (Return no_arm_engine, example_tape)
  /\ 0 <= 3
  /\ (0 < 5)%nat
  /\ choose_action (no_arm_engine, example_tape) =
     (Raise ValueError, (no_arm_engine, (draw_ranf example_tape).2))
  /\ run_bandit 5 (no_arm_engine, example_tape) =
     (Raise ValueError, (no_arm_engine, (draw_ranf example_tape).2)).
Proof.
  assert (0 <= 3) as Hiters by lia.
  assert (0 < 5)%nat as Hfuel by lia.
  split; [reflexivity|]. split; [exact Hiters|]. split; [exact Hfuel|].
  exact (no_arm_no_round 0 3 (PyFloat 0) None None example_tape example_tape no_arm_engine
           example_tape 5 eq_refl Hiters Hfuel).
Defined.

Lemma choose_action_in_range_witness :
  valid example_engine
  /\ exists a g',
       choose_action (example_engine, example_tape) = (Return a, (example_engine, g'))
       /\ 0 <= a < k example_engine.
Proof.
  split; [exact example_engine_valid|].
  exact (choose_action_in_range example_engine example_tape example_engine_valid).
Defined.

Definition exploring_engine : bandit :=
  Bandit 2 1 3 [0%Q; 0%Q] Float64 [0; 0] 0 [5%Q; (-5)%Q] [0%Q; 0%Q].

Lemma epsilon_one_always_explores_witness :
  (1 <= epsilon exploring_engine)%Q
  /\ 0 < k exploring_engine
  /\ choose_action (exploring_engine, example_tape) =
     (Return (draw_randint 0 (k exploring_engine) (draw_ranf example_tape).2).1,
      (exploring_engine, (draw_randint 0 (k exploring_engine) (draw_ranf example_tape).2).2)).
Proof.
  assert (1 <= epsilon exploring_engine)%Q as Heps by discriminate.
  assert (0 < k exploring_engine) as Hk by reflexivity.
  split; [exact Heps|]. split; [exact Hk|].
  exact (epsilon_one_always_explores exploring_engine example_tape Heps Hk).
Defined.

Definition exploiting_engine : bandit :=
  Bandit 2 (-1) 3 [0%Q; 0%Q] Float64 [0; 0] 0 [5%Q; (-5)%Q] [0%Q; 0%Q].

Lemma negative_epsilon_always_exploits_witness :
  (epsilon exploiting_engine < 0)%Q
  /\ choose_action (exploiting_engine, zero_draw_tape) =
     (np.argmax (action_values exploiting_engine),
      (exploiting_engine, (draw_ranf zero_draw_tape).2)).
Proof.
  assert (epsilon exploiting_engine < 0)%Q as Heps by reflexivity.
  split; [exact Heps|].
  exact (negative_epsilon_always_exploits exploiting_engine zero_draw_tape Heps).
Defined.

Lemma update_action_values_other_arms_witness :
  valid example_engine
  /\ 0 <= 0 < k example_engine
  /\ exists b',
       update_action_values 0 5 (example_engine, example_tape) =
         (Return tt, (b', example_tape))
       /\ total_reward b' = total_reward example_engine
       /\ same_config example_engine b'
       /\ forall n, n <> Z.to_nat 0 ->
            action_chosen_counter b' !! n = action_chosen_counter example_engine !! n
            /\ action_values b' !! n = action_values example_engine !! n.
Proof.
  assert (0 <= 0 < k example_engine) as Ha by (cbn; lia).
  split; [exact example_engine_valid|]. split; [exact Ha|].
  exact (update_action_values_other_arms example_engine example_tape 0 5
           example_engine_valid Ha).
Defined.

Lemma default_engine_runs_witness :
  0 < 2
  /\ __init__ 2 0 3 (PyFloat 0) None None example_tape =
     (Return (constructed 2 0 3 (PyFloat 0) None None example_tape),
      (draw_normal_vector 0 1 2 example_tape).2)
  /\ (Z.to_nat (3 + 1) < 5)%nat
  /\ exists b' g',
       run_bandit 5 (constructed 2 0 3 (PyFloat 0) None None example_tape, example_tape) =
         (Return (total_reward b'), (b', g'))
       /\ sum_counter (action_chosen_counter b') = Z.of_nat (Z.to_nat (3 + 1)).
Proof.
  assert (0 < 2) as Hk by lia.
  assert (Z.to_nat (3 + 1) < 5)%nat as Hfuel by lia.
  split; [exact Hk|]. split; [reflexivity|]. split; [exact Hfuel|].
  exact (default_engine_runs 2 0 3 (PyFloat 0) example_tape _ _ example_tape 5 Hk eq_refl Hfuel).
Defined.

Lemma rounds_estimate_observed_means_witness :
  valid_config 2 3 (Some [5%Q; (-5)%Q]) (Some [0%Q; 0%Q])
  /\ __init__ 2 0 3 (PyFloat 0) (Some [5%Q; (-5)%Q]) (Some [0%Q; 0%Q]) example_tape =
     (Return example_engine, example_tape)
  /\ exists trace b' g',
       rounds 4 (example_engine, example_tape) = (Return trace, (b', g'))
       /\ forall a, 0 <= a < 2 ->
            action_chosen_counter b' !! Z.to_nat a =
              Some (Z.of_nat (length (rewards_for a trace)))
            /\ (rewards_for a trace <> [] ->
                exists v, action_values b' !! Z.to_nat a = Some v
                          /\ (v == mean_reward (rewards_for a trace))%Q).
Proof.
  split; [exact example_config|]. split; [exact example_engine_constructed|].
  exact (rounds_estimate_observed_means 2 0 3 0 (Some [5%Q; (-5)%Q]) (Some [0%Q; 0%Q])
           example_tape example_tape example_engine 4 example_tape
           example_config example_engine_constructed).
Defined.

Lemma total_reward_is_weighted_sum_witness :
  valid_config 2 3 (Some [5%Q; (-5)%Q]) (Some [0%Q; 0%Q])
  /\ __init__ 2 0 3 (PyFloat 0) (Some [5%Q; (-5)%Q]) (Some [0%Q; 0%Q]) example_tape =
     (Return example_engine, example_tape)
  /\ exists trace b' g',
       rounds 4 (example_engine, example_tape) = (Return trace, (b', g'))
       /\ (total_reward b'
           == weighted_sum (action_chosen_counter b') (action_values b'))%Q.
Proof.
  split; [exact example_config|]. split; [exact example_engine_constructed|].
  exact (total_reward_is_weighted_sum 2 0 3 0 (Some [5%Q; (-5)%Q]) (Some [0%Q; 0%Q])
           example_tape example_tape example_engine 4 example_tape
           example_config example_engine_constructed).
Defined.

(** An engine that always explores and has a mean for its first arm only,
    on a tape that draws arm 0 and then arm 1: the first round returns, the
    second raises [IndexError] in [get_reward]. *)
Definition short_means_world : world (list Z) :=
  (Bandit 2 1 3 [0%Q; 0%Q] Float64 [0; 0] 0 [5%Q] [0%Q; 0%Q], [0; 0; 7; 0; 1]).

Definition short_means_trace : list (Z * Q) :=
  match (rounds 1 short_means_world).1 with
  | Return t => t
  | _ => []
  end.

Lemma run_bandit_aborts_without_rollback_witness :
  rounds 1 short_means_world = (Return short_means_trace, (rounds 1 short_means_world).2)
  /\ round (rounds 1 short_means_world).2 =
     (Raise IndexError, (round (rounds 1 short_means_world).2).2)
  /\ (1 < Z.to_nat (iters short_means_world.1 + 1))%nat
  /\ (Z.to_nat (iters short_means_world.1 + 1) < 5)%nat
  /\ run_bandit 5 short_means_world =
     (Raise IndexError, (round (rounds 1 short_means_world).2).2).
Proof.
  assert (rounds 1 short_means_world =
          (Return short_means_trace, (rounds 1 short_means_world).2)) as Hrounds
    by (vm_compute; reflexivity).
  assert (round (rounds 1 short_means_world).2 =
          (Raise IndexError, (round (rounds 1 short_means_world).2).2)) as Hfail
    by (vm_compute; reflexivity).
  assert (1 < Z.to_nat (iters short_means_world.1 + 1))%nat as Hlt by (cbn; lia).
  assert (Z.to_nat (iters short_means_world.1 + 1) < 5)%nat as Hfuel by (cbn; lia).
  split; [exact Hrounds|]. split; [exact Hfail|]. split; [exact Hlt|].
  split; [exact Hfuel|].
  exact (run_bandit_aborts_without_rollback 5 1 short_means_world _ _ _ _
           Hrounds Hfail Hlt Hfuel).
Defined.

(** The engine the failing call leaves has the reward of the first round in
    [total_reward] and its count in the counter of arm 0. *)
Example short_means_run :
  match run_bandit 5 short_means_world with
  | (Raise IndexError, (b', _)) =>
      (total_reward b' == 5)%Q /\ action_chosen_counter b' = [1; 0]
  | _ => False
  end.
Proof. vm_compute. split; reflexivity. Qed.

Lemma unchosen_arm_keeps_initial_reward_witness :
  valid_config 2 3 (Some [5%Q; (-5)%Q]) (Some [0%Q; 0%Q])
  /\ __init__ 2 0 3 (PyFloat 7) (Some [5%Q; (-5)%Q]) (Some [0%Q; 0%Q]) example_tape =
     (Return example_engine_from_7, example_tape)
  /\ exists trace b' g',
       rounds 4 (example_engine_from_7, example_tape) = (Return trace, (b', g'))
       /\ forall a, 0 <= a < 2 -> rewards_for a trace = [] ->
            action_values b' !! Z.to_nat a = Some (number_value (PyFloat 7)).
Proof.
  split; [exact example_config|]. split; [reflexivity|].
  exact (unchosen_arm_keeps_initial_reward 2 0 3 (PyFloat 7) (Some [5%Q; (-5)%Q]) (Some [0%Q; 0%Q])
           example_tape example_tape example_engine_from_7 4 example_tape
           example_config eq_refl).
Defined.

Lemma first_exploit_chooses_arm_zero_witness :
  0 < 2
  /\ __init__ 2 0 3 (PyFloat 7) (Some [5%Q; (-5)%Q]) (Some [0%Q; 0%Q]) example_tape =
     (Return example_engine_from_7, example_tape)
  /\ (0 < (draw_ranf example_tape).1)%Q
  /\ choose_action (example_engine_from_7, example_tape) =
     (Return 0, (example_engine_from_7, (draw_ranf example_tape).2)).
Proof.
  assert (0 < 2) as Hk by lia.
  assert (0 < (draw_ranf example_tape).1)%Q as Hlt by reflexivity.
  split; [exact Hk|]. split; [reflexivity|]. split; [exact Hlt|].
  exact (first_exploit_chooses_arm_zero 2 0 3 (PyFloat 7) (Some [5%Q; (-5)%Q]) (Some [0%Q; 0%Q])
           example_tape example_tape example_engine_from_7 example_tape
           Hk eq_refl Hlt).
Defined.

